(** * kuling: pattern-based file lookup, file move and file delete

    A shallow embedding of [kuling/find.py].  The three public functions
    [find_matching_paths], [move_file] and [delete_file] are written in a
    state-and-exception monad over a model of a POSIX file tree; the
    [pathlib] and [os] calls they make are modelled in the modules
    [Str], [PurePath] and [Fs] below.  Strings are the bytes that reach
    the system.  The tree has directories and regular files, and the
    system refuses names over [NAME_MAX], paths of [PATH_MAX] bytes or
    more and null bytes, as Linux does; symbolic links and permissions
    are outside the model. *)

From Stdlib Require Import Ascii Sorted.
From stdpp Require Import gmap strings list.

(** ** [str] methods *)

Module Str.

(** [s.split(sep)] for a one-character separator. *)
Fixpoint split (sep : ascii) (s : string) : list string :=
  match s with
  | EmptyString => [EmptyString]
  | String c r =>
      if Ascii.eqb c sep then EmptyString :: split sep r
      else match split sep r with
           | x :: xs => String c x :: xs
           | [] => [String c EmptyString]
           end
  end.

(** [sep.join(l)] *)
Fixpoint join (sep : string) (l : list string) : string :=
  match l with
  | [] => EmptyString
  | [x] => x
  | x :: xs => x +:+ sep +:+ join sep xs
  end.

(** [c in s] for a one-character [c]. *)
Fixpoint contains (c : ascii) (s : string) : bool :=
  match s with
  | EmptyString => false
  | String d r => Ascii.eqb d c || contains c r
  end.

(** [s.startswith(c)] and [s.endswith(c)] for a one-character [c]. *)
Definition startswith (c : ascii) (s : string) : bool :=
  match s with
  | String d _ => Ascii.eqb d c
  | EmptyString => false
  end.

Fixpoint endswith (c : ascii) (s : string) : bool :=
  match s with
  | EmptyString => false
  | String d EmptyString => Ascii.eqb d c
  | String _ r => endswith c r
  end.

Definition is_empty (s : string) : bool :=
  match s with EmptyString => true | _ => false end.

End Str.

(** ** [pathlib.PurePosixPath]

    A path value is its tuple of [parts]; two paths are equal when their
    parts are.  The root, when there is one, is the first part (["/"], or
    ["//"] for exactly two leading slashes). *)

Abbreviation Path := (list string).

Module PurePath.

Definition sep : ascii := "/"%char.

(** [posixpath.splitroot], without the (always empty) drive. *)
Definition splitroot (p : string) : string * string :=
  match p with
  | String c0 r1 =>
      if Ascii.eqb c0 sep then
        match r1 with
        | String c1 r2 =>
            if Ascii.eqb c1 sep then
              match r2 with
              | String c2 _ =>
                  if Ascii.eqb c2 sep then ("/", r1) else ("//", r2)
              | EmptyString => ("//", r2)
              end
            else ("/", r1)
        | EmptyString => ("/", r1)
        end
      else ("", p)
  | EmptyString => ("", p)
  end.

(** [x and x != '.'] *)
Definition keep_segment (x : string) : bool :=
  negb (Str.is_empty x) && negb (String.eqb x ".").

(** [PurePath._parse_path] followed by [parts]. *)
Definition parse (path : string) : Path :=
  let '(root, rel) := splitroot path in
  let parsed := List.filter keep_segment (Str.split sep rel) in
  if Str.is_empty root then parsed else root :: parsed.

(** [posixpath.join(a, *p)] *)
Definition join_step (path b : string) : string :=
  if Str.startswith sep b then b
  else if Str.is_empty path || Str.endswith sep path then path +:+ b
  else path +:+ "/" +:+ b.

Definition posix_join (args : list string) : string :=
  match args with
  | [] => ""
  | a :: p => fold_left join_step p a
  end.

(** The constructor [Path] applied to the argument tuple [args]. *)
Definition of_args (args : list string) : Path := parse (posix_join args).

Definition is_root (s : string) : bool :=
  String.eqb s "/" || String.eqb s "//".

(** The root ([""] when relative) and the parts after it. *)
Definition root (p : Path) : string :=
  match p with
  | r :: _ => if is_root r then r else ""
  | [] => ""
  end.

Definition tail (p : Path) : list string :=
  match p with
  | r :: t => if is_root r then t else p
  | [] => []
  end.

(** [str(p)] *)
Definition str (p : Path) : string :=
  let s := root p +:+ Str.join "/" (tail p) in
  if Str.is_empty s then "." else s.

(** [p.name] *)
Definition name (p : Path) : string := List.last (tail p) "".

(** [p.parent] *)
Definition parent (p : Path) : Path :=
  match tail p with
  | [] => p
  | _ => removelast p
  end.

(** [p / key] *)
Definition truediv (p : Path) (key : string) : Path := of_args [str p; key].

End PurePath.

(** ** Python exceptions and the file tree *)

Inductive exn_class :=
  | ValueError | NameError | NotImplementedError | OSError
  | FileNotFoundError | NotADirectoryError | FileExistsError
  | IsADirectoryError | SameFileError.

(** What a system call or its argument conversion fails with.
    [EmbeddedNull] is no error number: a path with a null byte is refused
    with [ValueError] before the call is made. *)
Inductive errno :=
  | ENOENT | ENOTDIR | EEXIST | EISDIR | ENAMETOOLONG | EmbeddedNull.

(** An exception raised with a message, an [OSError] of the system with
    its [errno] and [filename] attributes, or the [SameFileError] of
    [shutil] for two paths. *)
Inductive exn :=
  | Exn (cls : exn_class) (msg : string)
  | OSErr (code : errno) (filename : string)
  | SameFile (src dst : string).

Inductive result (A : Type) :=
  | Ok (a : A)
  | Raise (e : exn).
Arguments Ok {A} a.
Arguments Raise {A} e.

Module Fs.

Inductive node :=
  | File (content : list Byte.byte)
  | Dir.

(** Entries are keyed by their absolute location, the list of names
    from the root directory (which is the empty list).  There are no
    symbolic links and no permissions. *)
Record state := mkState {
  cwd : list string;
  tree : gmap (list string) node
}.

(** The exception of a failed call on the path [p]. *)
Definition os_error (e : errno) (p : Path) : exn :=
  match e with
  | EmbeddedNull => Exn ValueError "embedded null byte"
  | _ => OSErr e (PurePath.str p)
  end.

(** The longest name of an entry, and the length from which a path is
    refused, in bytes. *)
Definition NAME_MAX : nat := 255.
Definition PATH_MAX : nat := 4096.

(** What is refused for the text of the path alone, before any lookup. *)
Definition precheck (p : Path) : option errno :=
  let text := PurePath.str p in
  if Str.contains "000"%char text then Some EmbeddedNull
  else if PATH_MAX <=? String.length text then Some ENAMETOOLONG
  else None.

(** One step of path resolution from the directory at [cur]. *)
Definition step (cur : list string) (s : string) : list string :=
  if String.eqb s ".." then removelast cur else cur ++ [s].

(** Resolution of the segments [segs] from [cur]: every location a
    segment is looked up in must be a directory, and a name over
    [NAME_MAX] is refused by the lookup. *)
Fixpoint walk (t : gmap (list string) node) (cur : list string)
    (segs : list string) : errno + list string :=
  match segs with
  | [] => inr cur
  | s :: rest =>
      match t !! cur with
      | None => inl ENOENT
      | Some (File _) => inl ENOTDIR
      | Some Dir =>
          if NAME_MAX <? String.length s then inl ENAMETOOLONG
          else walk t (step cur s) rest
      end
  end.

Definition origin (st : state) (p : Path) : list string :=
  if Str.is_empty (PurePath.root p) then cwd st else [].

Definition resolve (st : state) (p : Path) : errno + list string :=
  match precheck p with
  | Some e => inl e
  | None => walk (tree st) (origin st p) (PurePath.tail p)
  end.

(** [os.stat(p)] *)
Definition stat (st : state) (p : Path) : errno + node :=
  match resolve st p with
  | inl e => inl e
  | inr loc =>
      match tree st !! loc with
      | Some n => inr n
      | None => inl ENOENT
      end
  end.

(** Whether [stat] finds an entry at [p], a directory, a regular file.
    These are facts about the tree ([os.path.isdir] is [is_dir]); the
    methods [Path.exists], [Path.is_dir] and [Path.is_file], which can
    raise, are [path_exists], [path_is_dir] and [path_is_file] below. *)
Definition exists_ (st : state) (p : Path) : bool :=
  match stat st p with inr _ => true | inl _ => false end.

Definition is_dir (st : state) (p : Path) : bool :=
  match stat st p with inr Dir => true | _ => false end.

Definition is_file (st : state) (p : Path) : bool :=
  match stat st p with inr (File _) => true | _ => false end.

(** [_ignore_error] of [pathlib], with the [ValueError] that the same
    methods catch: the failures of [stat] that they answer with [False].
    ([EBADF] and [ELOOP], also ignored, do not arise here.) *)
Definition ignored (e : errno) : bool :=
  match e with
  | ENOENT | ENOTDIR | EmbeddedNull => true
  | _ => false
  end.

(** A missing entry can be created under its name only: not as [.]
    (no segment at all) and not as [..]. *)
Definition creatable (p : Path) : bool :=
  match PurePath.tail p with
  | [] => false
  | t => negb (String.eqb (List.last t "") "..")
  end.

Definition set_tree (st : state) (t : gmap (list string) node) : state :=
  mkState (cwd st) t.

(** [os.mkdir(p)] *)
Definition os_mkdir (st : state) (p : Path) : errno + state :=
  match resolve st p with
  | inl e => inl e
  | inr loc =>
      match tree st !! loc with
      | Some _ => inl EEXIST
      | None =>
          if creatable p then inr (set_tree st (<[loc := Dir]> (tree st)))
          else inl ENOENT
      end
  end.

(** [os.unlink(p)]; a directory is refused with [EISDIR]. *)
Definition os_unlink (st : state) (p : Path) : errno + state :=
  match resolve st p with
  | inl e => inl e
  | inr loc =>
      match tree st !! loc with
      | None => inl ENOENT
      | Some Dir => inl EISDIR
      | Some (File _) => inr (set_tree st (delete loc (tree st)))
      end
  end.

(** [Path.mkdir(parents=False, exist_ok)].  Its handlers catch
    [FileNotFoundError] and [OSError], not [ValueError]; where [is_dir]
    is asked after an [OSError], a [stat] that failed raises the error
    [os.mkdir] already gave. *)
Definition mkdir_leaf (self : Path) (exist_ok : bool) (st : state)
    : result unit * state :=
  match os_mkdir st self with
  | inr st' => (Ok tt, st')
  | inl ENOENT => (Raise (os_error ENOENT self), st)
  | inl EmbeddedNull => (Raise (os_error EmbeddedNull self), st)
  | inl e =>
      if negb exist_ok || negb (is_dir st self)
      then (Raise (os_error e self), st)
      else (Ok tt, st)
  end.

(** [Path.mkdir(parents, exist_ok)] on the path [anchor ++ rev rtail]:
    when [os.mkdir] finds no parent, the parent is made first (with
    [parents=True, exist_ok=True]) and the directory itself is then made
    with [parents=False].  The recursion is on the parent, one segment
    shorter; a path without segments is its own parent. *)
Fixpoint mkdir_from (anchor rtail : list string) (parents exist_ok : bool)
    (st : state) : result unit * state :=
  let self := anchor ++ rev rtail in
  match os_mkdir st self with
  | inr st' => (Ok tt, st')
  | inl ENOENT =>
      match parents, rtail with
      | true, _ :: rparent =>
          match mkdir_from anchor rparent true true st with
          | (Ok _, st1) => mkdir_leaf self exist_ok st1
          | (Raise e, st1) => (Raise e, st1)
          end
      | _, _ => (Raise (os_error ENOENT self), st)
      end
  | inl EmbeddedNull => (Raise (os_error EmbeddedNull self), st)
  | inl e =>
      if negb exist_ok || negb (is_dir st self)
      then (Raise (os_error e self), st)
      else (Ok tt, st)
  end.

Definition anchor (p : Path) : list string :=
  if Str.is_empty (PurePath.root p) then [] else [PurePath.root p].

Definition mkdir (p : Path) (parents exist_ok : bool) (st : state)
    : result unit * state :=
  mkdir_from (anchor p) (rev (PurePath.tail p)) parents exist_ok st.

(** [Path.unlink()] *)
Definition unlink (p : Path) (st : state) : result unit * state :=
  match os_unlink st p with
  | inr st' => (Ok tt, st')
  | inl e => (Raise (os_error e p), st)
  end.

(** [shutil.copy2(src, dst)]: the contents are copied; the metadata
    that [copy2] also copies is not part of the model. *)
Definition copy2 (src dst : Path) (st : state) : result Path * state :=
  let dst := if is_dir st dst then PurePath.truediv dst (PurePath.name src)
             else dst in
  let same :=
    match stat st src, stat st dst, resolve st src, resolve st dst with
    | inr _, inr _, inr l1, inr l2 => bool_decide (l1 = l2)
    | _, _, _, _ => false
    end in
  if same then (Raise (SameFile (PurePath.str src) (PurePath.str dst)), st)
  else
    match stat st src with
    | inl e => (Raise (os_error e src), st)
    | inr Dir => (Raise (os_error EISDIR src), st)
    | inr (File bytes) =>
        match resolve st dst with
        | inl e => (Raise (os_error e dst), st)
        | inr loc =>
            match tree st !! loc with
            | Some Dir => (Raise (os_error EISDIR dst), st)
            | Some (File _) =>
                (Ok dst, set_tree st (<[loc := File bytes]> (tree st)))
            | None =>
                if creatable dst
                then (Ok dst, set_tree st (<[loc := File bytes]> (tree st)))
                else (Raise (os_error ENOENT dst), st)
            end
        end
    end.

End Fs.

(** ** The monad of the embedded functions: a file tree is threaded
    through, and a raised exception ends the computation. *)

Definition M (A : Type) : Type := Fs.state → result A * Fs.state.

Definition ret {A} (a : A) : M A := fun st => (Ok a, st).

Definition raise {A} (e : exn) : M A := fun st => (Raise e, st).

Definition bind {A B} (m : M A) (k : A → M B) : M B :=
  fun st =>
    match m st with
    | (Ok a, st') => k a st'
    | (Raise e, st') => (Raise e, st')
    end.

Declare Scope py_scope.
Delimit Scope py_scope with py.
Notation "x <- m ;; k" := (bind m (fun x => k))
  (at level 100, m at next level, right associativity) : py_scope.
Notation "m ;; k" := (bind m (fun _ => k))
  (at level 100, right associativity) : py_scope.

(** [Path.exists], [Path.is_dir] and [Path.is_file]: the answer is read
    off [stat]; a failure that [_ignore_error] lists, or a [ValueError],
    is answered with [False], and any other [OSError] is raised again.
    The file tree is left as it is. *)
Definition path_test (test : Fs.node → bool) (p : Path) : M bool :=
  fun st =>
    match Fs.stat st p with
    | inr n => (Ok (test n), st)
    | inl e =>
        if Fs.ignored e then (Ok false, st)
        else (Raise (Fs.os_error e p), st)
    end.

Definition path_exists : Path → M bool := path_test (fun _ => true).

Definition path_is_dir : Path → M bool :=
  path_test (fun n => match n with Fs.Dir => true | Fs.File _ => false end).

Definition path_is_file : Path → M bool :=
  path_test (fun n => match n with Fs.File _ => true | Fs.Dir => false end).

(** A list comprehension with a condition that reads the file tree; an
    exception of the condition ends it. *)
Fixpoint filterM {A} (cond : A → M bool) (l : list A) : M (list A) :=
  match l with
  | [] => ret []
  | x :: xs =>
      (b <- cond x ;;
       rest <- filterM cond xs ;;
       ret (if b then x :: rest else rest))%py
  end.

(** ** [kuling/find.py] *)

Definition WILDCARD_CHARS : list ascii := ["*"; "?"; "["]%char.

(** [any(c in part for c in WILDCARD_CHARS)] *)
Definition has_wildcard (part : string) : bool :=
  existsb (fun c => Str.contains c part) WILDCARD_CHARS.

Definition enumerate {A} (l : list A) : list (nat * A) :=
  combine (seq 0 (length l)) l.

(** [[i for i, part in enumerate(path.parts) if any(...)]] *)
Definition wildcard_positions (parts : list string) : list nat :=
  map fst (List.filter (fun ip => has_wildcard (snd ip)) (enumerate parts)).

(** The base directory computed from the position of the first wildcard
    part: the parts before it, or [Path(".")] when there are none. *)
Definition base_dir_of (path : Path) (first_wildcard_position : nat) : Path :=
  if 0 <? first_wildcard_position
  then PurePath.of_args (take first_wildcard_position path)
  else PurePath.of_args ["."].

(** [str(Path] of the parts from the first wildcard part on[)] *)
Definition pattern_of (path : Path) (first_wildcard_position : nat) : string :=
  PurePath.str (PurePath.of_args (drop first_wildcard_position path)).

Definition is_nil {A} (l : list A) : bool :=
  match l with [] => true | _ => false end.

Section find_matching_paths.

(** [Path.glob]: the entries under a directory that match a pattern, or
    the exception it raises; it reads the file tree only.  The lookup
    does not depend on which matcher this is. *)
Variable glob : Fs.state → Path → string → result (list Path).

Definition path_glob (base : Path) (pattern : string) : M (list Path) :=
  fun st => (glob st base pattern, st).

(** The part of [find_matching_paths] after the base directory is
    known: its validation, the matching and the filter. *)
Definition find_under (path_pattern : string) (raise_error_if_no_match : bool)
    (base_dir : Path) (pattern : string) : M (list Path) :=
  (e <- path_exists base_dir ;;
   if negb e then
     raise (Exn NotADirectoryError
              ("Base directory does not exist: " +:+ PurePath.str base_dir))
   else
   d <- path_is_dir base_dir ;;
   if negb d then
     raise (Exn NotADirectoryError
              ("Base path is not a directory: " +:+ PurePath.str base_dir))
   else
   found <- path_glob base_dir pattern ;;
   matches <- filterM path_is_file found ;;
   if raise_error_if_no_match && is_nil matches then
     raise (Exn FileNotFoundError
              ("No files found matching pattern: " +:+ path_pattern))
   else ret matches)%py.

(** [Path(path_pattern)] raises neither [ValueError] nor [OSError] on a
    string, so the handler around it is never entered. *)
Definition find_matching_paths (path_pattern : string)
    (raise_error_if_no_match : bool) : M (list Path) :=
  let path := PurePath.of_args [path_pattern] in
  match wildcard_positions path with
  | [] =>
      (f <- path_is_file path ;;
       let matches := if f then [path] else [] in
       if raise_error_if_no_match && is_nil matches then
         raise (Exn FileNotFoundError ("No files found: " +:+ path_pattern))
       else ret matches)%py
  | first_wildcard_position :: _ =>
      find_under path_pattern raise_error_if_no_match
        (base_dir_of path first_wildcard_position)
        (pattern_of path first_wildcard_position)
  end.

End find_matching_paths.

(** The names bound at module level in [find.py]: its one import and its
    four definitions. *)
Definition module_globals : list string :=
  ["Path"; "WILDCARD_CHARS"; "find_matching_paths"; "move_file"; "delete_file"].

(** Evaluation of a name that is not local to the function. *)
Definition load_global (name : string) : M unit :=
  if bool_decide (name ∈ module_globals) then ret tt
  else raise (Exn NameError ("name '" +:+ name +:+ "' is not defined")).

Definition move_file (source destination : string) (delete_original : bool)
    : M Path :=
  let source := PurePath.of_args [source] in
  let destination := PurePath.of_args [destination] in
  (e <- path_exists source ;;
   if negb e then
     raise (Exn FileNotFoundError ("File not found: " +:+ PurePath.str source))
   else
   d <- path_is_dir destination ;;
   let destination :=
     if d then PurePath.truediv destination (PurePath.name source)
     else destination in
   Fs.mkdir (PurePath.parent destination) true true ;;
   load_global "shutil" ;;
   Fs.copy2 source destination ;;
   (if delete_original then Fs.unlink source else ret tt) ;;
   ret destination)%py.

Definition delete_file (path : string) : M bool :=
  let path := PurePath.of_args [path] in
  (e <- path_exists path ;;
   if e then
     (Fs.unlink path ;;
      ret true)
   else ret false)%py.

(** ** A reference matcher

    An executable [Path.glob] over the model tree, used to run
    [find_matching_paths] on concrete trees: [*], [?] and [[...]] within
    one segment, and [**] for any number of directories. *)

Module Glob.

Inductive token :=
  | TLit (c : ascii)
  | TAny
  | TStar
  | TClass (negated : bool) (items : list ascii).

(** The text of a bracket expression: up to the first [']'] that is not
    its first character; [None] when it is never closed. *)
Fixpoint class_body (first : bool) (s : string) : option (list ascii * string) :=
  match s with
  | EmptyString => None
  | String c r =>
      if Ascii.eqb c "]" && negb first then Some ([], r)
      else match class_body false r with
           | Some (body, rest) => Some (c :: body, rest)
           | None => None
           end
  end.

Fixpoint tokens (fuel : nat) (s : string) {struct fuel} : list token :=
  match fuel, s with
  | S fuel', String c r =>
      if Ascii.eqb c "*" then TStar :: tokens fuel' r
      else if Ascii.eqb c "?" then TAny :: tokens fuel' r
      else if Ascii.eqb c "[" then
        let '(negated, r') :=
          match r with
          | String d r1 => if Ascii.eqb d "!" then (true, r1) else (false, r)
          | EmptyString => (false, r)
          end in
        match class_body true r' with
        | Some (body, rest) => TClass negated body :: tokens fuel' rest
        | None => TLit c :: tokens fuel' r
        end
      else TLit c :: tokens fuel' r
  | _, _ => []
  end.

(** Membership in a bracket expression, with [a-z] ranges. *)
Fixpoint in_class (c : ascii) (items : list ascii) : bool :=
  match items with
  | lo :: tl =>
      match tl with
      | dash :: hi :: rest =>
          if Ascii.eqb dash "-"
          then (nat_of_ascii lo <=? nat_of_ascii c) && (nat_of_ascii c <=? nat_of_ascii hi)
               || in_class c rest
          else Ascii.eqb lo c || in_class c tl
      | _ => Ascii.eqb lo c || in_class c tl
      end
  | [] => false
  end.

Fixpoint match_tokens (pat : list token) (name : string) : bool :=
  match pat with
  | [] => Str.is_empty name
  | TStar :: pat' =>
      (fix star (n : string) : bool :=
         match_tokens pat' n ||
         match n with
         | String _ r => star r
         | EmptyString => false
         end) name
  | TAny :: pat' =>
      match name with
      | String _ r => match_tokens pat' r
      | EmptyString => false
      end
  | TClass negated items :: pat' =>
      match name with
      | String c r => xorb negated (in_class c items) && match_tokens pat' r
      | EmptyString => false
      end
  | TLit c :: pat' =>
      match name with
      | String d r => Ascii.eqb c d && match_tokens pat' r
      | EmptyString => false
      end
  end.

Definition fnmatch (pat name : string) : bool :=
  match_tokens (tokens (String.length pat) pat) name.

Definition dir_at (t : gmap (list string) Fs.node) (loc : list string) : bool :=
  match t !! loc with Some Fs.Dir => true | _ => false end.

(** Whether the names [rel], read downwards from the directory at
    [cur], match the pattern segments [pats]. *)
Fixpoint match_rel (t : gmap (list string) Fs.node) (pats : list string)
    (cur rel : list string) : bool :=
  match pats with
  | [] => is_nil rel
  | p :: ps =>
      if String.eqb p "**" then
        (fix deep (cur rel : list string) : bool :=
           match_rel t ps cur rel ||
           match rel with
           | x :: rest => dir_at t (cur ++ [x]) && deep (cur ++ [x]) rest
           | [] => false
           end) cur rel
      else
        match rel with
        | x :: rest =>
            fnmatch p x && (is_nil rest || dir_at t (cur ++ [x]))
            && match_rel t ps (cur ++ [x]) rest
        | [] => false
        end
  end.

(** [**] has to be a whole segment. *)
Fixpoint has_double_star (s : string) : bool :=
  match s with
  | String c (String d _ as r) =>
      (Ascii.eqb c "*" && Ascii.eqb d "*") || has_double_star r
  | _ => false
  end.

Definition is_prefix (l k : list string) : bool :=
  bool_decide (take (length l) k = l).

Definition glob (st : Fs.state) (base : Path) (pattern : string)
    : result (list Path) :=
  let pats := PurePath.parse pattern in
  if is_nil pats then
    Raise (Exn ValueError ("Unacceptable pattern: '" +:+ pattern +:+ "'"))
  else if negb (Str.is_empty (PurePath.root pats)) then
    Raise (Exn NotImplementedError "Non-relative patterns are unsupported")
  else if existsb (fun p => has_double_star p && negb (String.eqb p "**")) pats then
    Raise (Exn ValueError
             "Invalid pattern: '**' can only be an entire path component")
  else
    match Fs.resolve st base with
    | inl _ => Ok []
    | inr loc =>
        let below :=
          List.filter (fun k => is_prefix loc k) (map fst (map_to_list (Fs.tree st))) in
        let rels := map (drop (length loc)) below in
        Ok (map (fun rel => base ++ rel)
              (List.filter (match_rel (Fs.tree st) pats loc) rels))
    end.

End Glob.

(** ** Concrete trees *)

Definition bytes_of (s : string) : list Byte.byte := String.list_byte_of_string s.

Definition tree_of (entries : list (list string * Fs.node)) : gmap (list string) Fs.node :=
  list_to_map (([], Fs.Dir) :: entries).

(** The tree of [examples.py], with the working directory at its top. *)
Definition example_tree : Fs.state :=
  Fs.mkState [] (tree_of
    [ (["logs"], Fs.Dir); (["logs"; "2024"], Fs.Dir);
      (["data"], Fs.Dir); (["data"; "jan"], Fs.Dir); (["data"; "feb"], Fs.Dir);
      (["file1.txt"], Fs.File []); (["file2.txt"], Fs.File []);
      (["logs"; "2024"; "app.log"], Fs.File []);
      (["logs"; "2024"; "error.log"], Fs.File []);
      (["data"; "jan"; "report.csv"], Fs.File []);
      (["data"; "feb"; "report.csv"], Fs.File []) ]).

(** A name of 256 bytes, one over [NAME_MAX]. *)
Definition long_name : string := String.string_of_list_ascii (repeat "a"%char 256).

Definition scenario_D_tree : Fs.state :=
  Fs.mkState [] (tree_of
    [ (["a"], Fs.Dir); (["a"; "b"], Fs.Dir);
      (["a"; "b"; "file.txt"], Fs.File (bytes_of "payload")) ]).

(** ** The decomposition of a pattern, as the specification words it *)

(** The zero-based index of the first segment that contains a wildcard
    character, if there is one. *)
Fixpoint first_wildcard_segment (segments : list string) : option nat :=
  match segments with
  | [] => None
  | s :: rest =>
      if has_wildcard s then Some 0
      else S <$> first_wildcard_segment rest
  end.

(** A segment as [Path] keeps it: not empty, not ["."], without a
    separator.  A tuple of parts is well formed when everything after its
    root is a segment. *)
Definition is_segment (x : string) : bool :=
  PurePath.keep_segment x && negb (Str.contains PurePath.sep x).

Definition well_formed (p : Path) : Prop :=
  Forall (fun x => is_segment x = true) (PurePath.tail p).

(** ** The failure conditions of the specification

    [find_matching_paths] raises [NotADirectoryError] for both base
    directory failures, told apart by the message, and
    [FileNotFoundError] when nothing matched. *)

Definition BaseNotFound (base_dir : Path) : exn :=
  Exn NotADirectoryError
    ("Base directory does not exist: " +:+ PurePath.str base_dir).

Definition BaseNotADirectory (base_dir : Path) : exn :=
  Exn NotADirectoryError
    ("Base path is not a directory: " +:+ PurePath.str base_dir).

Definition NoMatchFound (path_pattern : string) (e : exn) : Prop :=
  e = Exn FileNotFoundError ("No files found: " +:+ path_pattern) ∨
  e = Exn FileNotFoundError ("No files found matching pattern: " +:+ path_pattern).

(** What the "raise on empty" policy makes of a filtered result set. *)
Definition no_match_policy (path_pattern : string) (raise_if_no_match : bool)
    (matches : list Path) (outcome : result (list Path)) : Prop :=
  ((∃ e, outcome = Raise e ∧ NoMatchFound path_pattern e)
     ↔ (matches = [] ∧ raise_if_no_match = true)) ∧
  (¬ (matches = [] ∧ raise_if_no_match = true) → outcome = Ok matches).

(** Two outcomes that agree up to the order of the paths. *)
Definition same_outcome (r1 r2 : result (list Path)) : Prop :=
  match r1, r2 with
  | Ok l1, Ok l2 => ∀ f, f ∈ l1 ↔ f ∈ l2
  | Raise e1, Raise e2 => e1 = e2
  | _, _ => False
  end.

(** [st'] has every entry of [st], unchanged, and has no regular file
    that [st] has not: at most directories were added. *)
Definition only_adds_directories (st st' : Fs.state) : Prop :=
  Fs.cwd st' = Fs.cwd st ∧
  (∀ loc n, Fs.tree st !! loc = Some n → Fs.tree st' !! loc = Some n) ∧
  (∀ loc bytes, Fs.tree st' !! loc = Some (Fs.File bytes) →
                Fs.tree st !! loc = Some (Fs.File bytes)).

(** The destination [move_file] settles on: inside [destination] when
    that is a directory. *)
Definition resolved_destination (st : Fs.state) (source destination : string)
    : Path :=
  let src := PurePath.of_args [source] in
  let dst := PurePath.of_args [destination] in
  if Fs.is_dir st dst then PurePath.truediv dst (PurePath.name src) else dst.

(** The exception of the name lookup [shutil] in [move_file]. *)
Definition shutil_undefined : exn :=
  Exn NameError "name 'shutil' is not defined".

(** The Python class of an exception. *)
Definition exn_cls (e : exn) : exn_class :=
  match e with
  | Exn cls _ => cls
  | OSErr ENOENT _ => FileNotFoundError
  | OSErr ENOTDIR _ => NotADirectoryError
  | OSErr EEXIST _ => FileExistsError
  | OSErr EISDIR _ => IsADirectoryError
  | OSErr ENAMETOOLONG _ => OSError
  | OSErr EmbeddedNull _ => ValueError
  | SameFile _ _ => SameFileError
  end.

(** [stat] on [p] either succeeds or fails in a way that [Path.exists],
    [Path.is_dir] and [Path.is_file] answer with [False]: these methods
    return on [p]. *)
Definition lookup_answers (st : Fs.state) (p : Path) : Prop :=
  match Fs.stat st p with
  | inr _ => True
  | inl e => Fs.ignored e = true
  end.

(** The classes of the exceptions that the calls on the file tree raise
    in [move_file]: the lookups and [Path.mkdir]. *)
Definition tree_error_class (e : exn) : Prop :=
  exn_cls e = FileNotFoundError ∨ exn_cls e = NotADirectoryError ∨
  exn_cls e = FileExistsError ∨ exn_cls e = OSError ∨ exn_cls e = ValueError.

(** * Properties *)

(** ** Strings and paths *)

Section path_lemmas.

Import PurePath.

Lemma split_nonempty c s : Str.split c s ≠ [].
Proof. destruct s as [|d r]; simpl; [done|]. destruct (Ascii.eqb d c); [done|]. by destruct (Str.split c r). Qed.

Lemma split_app c a b :
  Str.split c (a +:+ String c b) = Str.split c a ++ Str.split c b.
Proof.
  induction a as [|d r IH]; simpl.
  - by rewrite Ascii.eqb_refl.
  - rewrite IH. destruct (Ascii.eqb d c); [done|].
    pose proof (split_nonempty c r). by destruct (Str.split c r).
Qed.

Lemma split_no_sep c s : Str.contains c s = false → Str.split c s = [s].
Proof.
  induction s as [|d r IH]; simpl; [done|].
  intros [Hd Hr]%orb_false_elim. rewrite Hd, IH; done.
Qed.

Lemma split_pieces c s : Forall (fun x => Str.contains c x = false) (Str.split c s).
Proof.
  induction s as [|d r IH]; simpl.
  - by constructor.
  - destruct (Ascii.eqb d c) eqn:Hd.
    + by constructor.
    + pose proof (split_nonempty c r).
      destruct (Str.split c r) as [|x xs]; [done|].
      inversion IH; subst. constructor; [|done]. simpl. by rewrite Hd.
Qed.

Lemma is_root_cases r : is_root r = true → r = "/" ∨ r = "//".
Proof.
  unfold is_root.
  intros [H%String.eqb_eq | H%String.eqb_eq]%orb_true_iff; auto.
Qed.

Lemma segment_not_root x : is_segment x = true → is_root x = false.
Proof.
  unfold is_segment, is_root. intros [_ H]%andb_true_iff.
  apply negb_true_iff in H.
  destruct (String.eqb_spec x "/") as [->|]; [done|].
  destruct (String.eqb_spec x "//") as [->|]; done.
Qed.

Lemma segments_tail l :
  Forall (fun x => is_segment x = true) l → tail l = l ∧ root l = "".
Proof.
  destruct 1 as [|x l Hx Hl]; [done|]. unfold tail, root.
  by rewrite (segment_not_root x Hx).
Qed.

Lemma well_formed_cases p :
  well_formed p →
  (Forall (fun x => is_segment x = true) p ∧ tail p = p ∧ root p = "") ∨
  (∃ r t, p = r :: t ∧ is_root r = true ∧ tail p = t ∧ root p = r ∧
          Forall (fun x => is_segment x = true) t).
Proof.
  unfold well_formed. destruct p as [|r t]; [left; by repeat split|].
  unfold tail, root. destruct (is_root r) eqn:Hr; intros H.
  - right. by exists r, t.
  - left. by repeat split.
Qed.

Lemma well_formed_take k p : well_formed p → well_formed (take k p).
Proof.
  intros [(Hp & _ & _)|(r & t & -> & Hr & _ & _ & Ht)]%well_formed_cases.
  - unfold well_formed.
    destruct (segments_tail (take k p)) as [-> _]; by apply Forall_take.
  - destruct k as [|k]; [by constructor|].
    change (take (S k) (r :: t)) with (r :: take k t).
    unfold well_formed, tail. rewrite Hr. by apply Forall_take.
Qed.

Lemma well_formed_drop k p : well_formed p → well_formed (drop k p).
Proof.
  intros [(Hp & _ & _)|(r & t & -> & Hr & _ & _ & Ht)]%well_formed_cases.
  - unfold well_formed.
    destruct (segments_tail (drop k p)) as [-> _]; by apply Forall_drop.
  - destruct k as [|k]; [rewrite drop_0; unfold well_formed, tail; by rewrite Hr|].
    change (drop (S k) (r :: t)) with (drop k t). unfold well_formed.
    destruct (segments_tail (drop k t)) as [-> _]; by apply Forall_drop.
Qed.

Lemma parse_well_formed s : well_formed (parse s).
Proof.
  unfold parse. destruct (splitroot s) as [r rel] eqn:Hs.
  assert (Forall (fun x => is_segment x = true)
            (List.filter keep_segment (Str.split sep rel))) as Hseg.
  { apply Forall_forall. intros x Hx%list_elem_of_In.
    apply filter_In in Hx as [Hx Hk]. unfold is_segment. rewrite Hk. simpl.
    pose proof (split_pieces sep rel) as Hall.
    rewrite Forall_forall in Hall. rewrite Hall; [done|].
    by apply list_elem_of_In. }
  assert (r = "" ∨ r = "/" ∨ r = "//") as Hr.
  { unfold splitroot in Hs.
    repeat match type of Hs with
           | context [match ?x with _ => _ end] => destruct x
           end; inversion Hs; auto. }
  destruct Hr as [-> | [-> | ->]]; simpl.
  - unfold well_formed. by destruct (segments_tail _ Hseg) as [-> _].
  - done.
  - done.
Qed.

Lemma append_cons x (a b : string) : String x a +:+ b = String x (a +:+ b).
Proof. reflexivity. Qed.

Lemma append_nil (b : string) : "" +:+ b = b.
Proof. reflexivity. Qed.

Lemma append_empty_r (a : string) : a +:+ "" = a.
Proof. induction a as [|x a IH]; [done|]. rewrite append_cons. by f_equal. Qed.

Lemma append_assoc (a b c : string) : (a +:+ b) +:+ c = a +:+ (b +:+ c).
Proof. induction a as [|x a IH]; [done|]. rewrite !append_cons. by f_equal. Qed.

Lemma endswith_append c a x :
  Str.is_empty x = false → Str.endswith c (a +:+ x) = Str.endswith c x.
Proof.
  intros Hx. induction a as [|d a IH]; [done|].
  change (String d a +:+ x) with (String d (a +:+ x)).
  destruct (a +:+ x) as [|e r] eqn:Hax.
  - destruct a; [rewrite append_nil in Hax; by subst x|done].
  - rewrite <- IH. done.
Qed.

Lemma no_sep_endswith c x : Str.contains c x = false → Str.endswith c x = false.
Proof.
  induction x as [|d r IH]; [done|]. simpl.
  intros [Hd Hr]%orb_false_elim. destruct r; [done|]. by apply IH.
Qed.

Lemma segment_facts x :
  is_segment x = true →
  Str.is_empty x = false ∧ Str.contains sep x = false ∧
  Str.startswith sep x = false ∧ Str.endswith sep x = false ∧
  keep_segment x = true.
Proof.
  unfold is_segment.
  intros [Hk Hc%negb_true_iff]%andb_true_iff.
  assert (Str.is_empty x = false) as He.
  { unfold keep_segment in Hk. by apply andb_true_iff in Hk as [?%negb_true_iff _]. }
  repeat split; try done.
  - destruct x as [|d r]; [done|]. simpl in *. by apply orb_false_elim in Hc as [Hd _].
  - by apply no_sep_endswith.
Qed.

(** The text that [posixpath.join] builds from a well-formed tuple. *)
Lemma fold_join_segments t acc :
  Forall (fun x => is_segment x = true) t →
  Str.is_empty acc = false →
  fold_left join_step t acc =
    match t with
    | [] => acc
    | _ => if Str.endswith sep acc then acc +:+ Str.join "/" t
           else acc +:+ "/" +:+ Str.join "/" t
    end.
Proof.
  intros Ht. revert acc. induction Ht as [|x t Hx Ht IH]; intros acc Hacc; [done|].
  destruct (segment_facts x Hx) as (Hne & Hc & Hs & He & _).
  simpl fold_left. unfold join_step at 2. rewrite Hs, Hacc. simpl orb.
  destruct (Str.endswith sep acc) eqn:Hend.
  - rewrite IH by (destruct acc; [done|by destruct x]).
    destruct t as [|y t]; [done|].
    rewrite endswith_append, He by done.
    change (Str.join "/" (x :: y :: t)) with (x +:+ "/" +:+ Str.join "/" (y :: t)).
    by rewrite append_assoc.
  - rewrite IH by (destruct acc; [done|done]).
    destruct t as [|y t]; [done|].
    rewrite endswith_append by (by destruct x).
    rewrite endswith_append, He by done.
    change (Str.join "/" (x :: y :: t)) with (x +:+ "/" +:+ Str.join "/" (y :: t)).
    by rewrite !append_assoc.
Qed.

Lemma join_segments_start t :
  Forall (fun x => is_segment x = true) t →
  Str.startswith sep (Str.join "/" t) = false.
Proof.
  destruct 1 as [|x t Hx Ht]; [done|].
  destruct (segment_facts x Hx) as (Hne & _ & Hs & _ & _).
  destruct t; [done|]. destruct x; [done|]. by simpl in *.
Qed.

Lemma parse_join_segments t :
  Forall (fun x => is_segment x = true) t →
  List.filter keep_segment (Str.split sep (Str.join "/" t)) = t.
Proof.
  induction 1 as [|x t Hx Ht IH]; [done|].
  destruct (segment_facts x Hx) as (_ & Hc & _ & _ & Hk).
  destruct t as [|y t].
  - simpl. rewrite (split_no_sep _ _ Hc). simpl. by rewrite Hk.
  - change (Str.join "/" (x :: y :: t)) with (x +:+ String sep (Str.join "/" (y :: t))).
    rewrite split_app, List.filter_app, IH, (split_no_sep _ _ Hc).
    simpl. by rewrite Hk.
Qed.

Lemma splitroot_relative j :
  Str.startswith sep j = false → splitroot j = ("", j).
Proof. destruct j as [|c r]; [done|]. simpl. by intros ->. Qed.

Lemma splitroot_rooted r j :
  is_root r = true → Str.startswith sep j = false →
  splitroot (r +:+ j) = (r, j).
Proof.
  intros Hr Hj.
  destruct (is_root_cases _ Hr) as [-> | ->];
    destruct j as [|c j]; simpl in *; try done; by rewrite Hj.
Qed.

(** [Path] applied to the parts of a path gives that path back. *)
Lemma of_args_well_formed p : well_formed p → of_args p = p.
Proof.
  intros [(Hp & _ & _)|(r & t & -> & Hr & _ & _ & Ht)]%well_formed_cases;
    unfold of_args, posix_join.
  - destruct p as [|a t]; [done|].
    inversion Hp as [|? ? Ha Ht]; subst.
    destruct (segment_facts a Ha) as (Hne & _ & _ & He & _).
    assert (fold_left join_step t a = Str.join "/" (a :: t)) as ->.
    { rewrite fold_join_segments by done. rewrite He. by destruct t. }
    unfold parse. rewrite splitroot_relative by (by apply join_segments_start).
    simpl Str.is_empty. cbv iota. by apply parse_join_segments.
  - assert (fold_left join_step t r = r +:+ Str.join "/" t) as ->.
    { rewrite fold_join_segments; [|done|].
      - assert (Str.endswith sep r = true) as ->.
        { by destruct (is_root_cases _ Hr) as [-> | ->]. }
        destruct t; [|done]. simpl Str.join. by rewrite append_empty_r.
      - by destruct (is_root_cases _ Hr) as [-> | ->]. }
    unfold parse. rewrite splitroot_rooted by (try done; by apply join_segments_start).
    rewrite parse_join_segments by done.
    by destruct (is_root_cases _ Hr) as [-> | ->].
Qed.

End path_lemmas.

(** ** The decomposition *)

Section decomposition.

Lemma positions_from_head n (ps : list string) :
  head (map fst (List.filter (fun ip : nat * string => has_wildcard (snd ip))
                   (combine (seq n (length ps)) ps)))
  = (fun k => n + k) <$> first_wildcard_segment ps.
Proof.
  revert n. induction ps as [|s ps IH]; intros n; [done|].
  simpl. destruct (has_wildcard s) eqn:Hs; simpl.
  - f_equal. lia.
  - rewrite IH. destruct (first_wildcard_segment ps); simpl; [|done].
    f_equal. lia.
Qed.

(** The first element of [wildcard_positions] is the index of the first
    wildcard-bearing segment. *)
Lemma wildcard_positions_head (ps : list string) :
  head (wildcard_positions ps) = first_wildcard_segment ps.
Proof.
  unfold wildcard_positions, enumerate. rewrite positions_from_head.
  by destruct (first_wildcard_segment ps).
Qed.

Lemma first_wildcard_None (ps : list string) :
  first_wildcard_segment ps = None ↔
  Forall (fun s => has_wildcard s = false) ps.
Proof.
  induction ps as [|s ps IH]; simpl.
  - split; [by constructor|done].
  - destruct (has_wildcard s) eqn:Hs.
    + split; [done|]. inversion 1; congruence.
    + destruct (first_wildcard_segment ps); simpl.
      * split; [done|]. inversion 1 as [|? ? _ H3]; subst. by apply IH in H3.
      * split; [|done]. intros _. constructor; [done|]. by apply IH.
Qed.

Lemma first_wildcard_Some (ps : list string) k :
  first_wildcard_segment ps = Some k →
  (∃ s, ps !! k = Some s ∧ has_wildcard s = true) ∧
  (∀ i s, i < k → ps !! i = Some s → has_wildcard s = false).
Proof.
  revert k. induction ps as [|s ps IH]; intros k; simpl; [done|].
  destruct (has_wildcard s) eqn:Hs.
  - intros [= <-]. split; [by exists s|]. intros; lia.
  - destruct (first_wildcard_segment ps) as [j|]; simpl; [|done].
    intros [= <-]. destruct (IH j eq_refl) as [(x & Hx & Hw) Hlt].
    split; [by exists x|].
    intros [|i] y Hi; simpl; [by intros [= <-]|].
    apply Hlt. lia.
Qed.

Lemma wildcard_positions_nil (ps : list string) :
  first_wildcard_segment ps = None → wildcard_positions ps = [].
Proof.
  intros H. pose proof (wildcard_positions_head ps) as Hh.
  rewrite H in Hh. by destruct (wildcard_positions ps).
Qed.

Lemma wildcard_positions_cons (ps : list string) k :
  first_wildcard_segment ps = Some k →
  ∃ rest, wildcard_positions ps = k :: rest.
Proof.
  intros H. pose proof (wildcard_positions_head ps) as Hh.
  rewrite H in Hh. destruct (wildcard_positions ps) as [|j rest]; [done|].
  injection Hh as ->. by exists rest.
Qed.

(** The base directory is the tuple of the parts before the first
    wildcard part, also when there is none before it. *)
Lemma base_dir_of_take p k :
  well_formed p → base_dir_of p k = take k p.
Proof.
  intros Hp. unfold base_dir_of. destruct k as [|k]; simpl Nat.ltb; cbv iota.
  - by rewrite take_0.
  - apply of_args_well_formed. by apply well_formed_take.
Qed.

Lemma pattern_of_drop p k :
  well_formed p → pattern_of p k = PurePath.str (drop k p).
Proof.
  intros Hp. unfold pattern_of.
  rewrite of_args_well_formed; [done|]. by apply well_formed_drop.
Qed.

Lemma of_args_single s : PurePath.of_args [s] = PurePath.parse s.
Proof. reflexivity. Qed.

End decomposition.

(** ** Reading the file tree *)

Section reading.

Lemma is_file_exists st p : Fs.is_file st p = true → Fs.exists_ st p = true.
Proof. unfold Fs.is_file, Fs.exists_. by destruct (Fs.stat st p) as [|[]]. Qed.

Lemma is_dir_exists st p : Fs.is_dir st p = true → Fs.exists_ st p = true.
Proof. unfold Fs.is_dir, Fs.exists_. by destruct (Fs.stat st p) as [|[]]. Qed.

Lemma is_file_not_dir st p : Fs.is_file st p = true → Fs.is_dir st p = false.
Proof. unfold Fs.is_file, Fs.is_dir. by destruct (Fs.stat st p) as [|[]]. Qed.

Lemma is_dir_not_file st p : Fs.is_dir st p = true → Fs.is_file st p = false.
Proof. unfold Fs.is_file, Fs.is_dir. by destruct (Fs.stat st p) as [|[]]. Qed.

Lemma exists_file_or_dir st p :
  Fs.exists_ st p = Fs.is_file st p || Fs.is_dir st p.
Proof. unfold Fs.is_file, Fs.is_dir, Fs.exists_. by destruct (Fs.stat st p) as [|[]]. Qed.

Lemma exists_answers st p : Fs.exists_ st p = true → lookup_answers st p.
Proof. unfold Fs.exists_, lookup_answers. by destruct (Fs.stat st p). Qed.

(** The three methods never change the file tree. *)
Lemma path_test_read_only test p st : snd (path_test test p st) = st.
Proof.
  unfold path_test. destruct (Fs.stat st p) as [e|n]; [|done].
  by destruct (Fs.ignored e).
Qed.

(** Where the lookup answers, the methods return what the tree says. *)
Lemma path_exists_answers st p :
  lookup_answers st p → path_exists p st = (Ok (Fs.exists_ st p), st).
Proof.
  unfold lookup_answers, path_exists, path_test, Fs.exists_.
  destruct (Fs.stat st p) as [e|n]; [by intros ->|done].
Qed.

Lemma path_is_dir_answers st p :
  lookup_answers st p → path_is_dir p st = (Ok (Fs.is_dir st p), st).
Proof.
  unfold lookup_answers, path_is_dir, path_test, Fs.is_dir.
  destruct (Fs.stat st p) as [e|[|]]; [by intros ->|done|done].
Qed.

Lemma path_is_file_answers st p :
  lookup_answers st p → path_is_file p st = (Ok (Fs.is_file st p), st).
Proof.
  unfold lookup_answers, path_is_file, path_test, Fs.is_file.
  destruct (Fs.stat st p) as [e|[|]]; [by intros ->|done|done].
Qed.

(** Where it does not, they raise the error of [stat]. *)
Lemma path_test_raises test st p e :
  Fs.stat st p = inl e → Fs.ignored e = false →
  path_test test p st = (Raise (Fs.os_error e p), st).
Proof. unfold path_test. by intros -> ->. Qed.

(** A returned answer is the one of the tree. *)
Lemma path_is_file_returns st p b :
  fst (path_is_file p st) = Ok b → lookup_answers st p ∧ b = Fs.is_file st p.
Proof.
  unfold lookup_answers, path_is_file, path_test, Fs.is_file.
  destruct (Fs.stat st p) as [e|[|]]; simpl; try (by intros [= <-]).
  destruct (Fs.ignored e); simpl; [by intros [= <-]|done].
Qed.

Lemma filterM_read_only (l : list Path) st :
  snd (filterM path_is_file l st) = st.
Proof.
  induction l as [|x l IH]; [done|]. simpl. unfold bind.
  pose proof (path_test_read_only
    (fun n => match n with Fs.File _ => true | Fs.Dir => false end) x st) as Hx.
  fold path_is_file in Hx.
  destruct (path_is_file x st) as [[b|e] st1]; simpl in Hx; subst st1; [|done].
  destruct (filterM path_is_file l st) as [[rest|e] st2]; simpl in IH; by subst st2.
Qed.

(** The list comprehension keeps the regular files, when every lookup
    answers. *)
Lemma filterM_answers (l : list Path) st :
  Forall (lookup_answers st) l →
  filterM path_is_file l st = (Ok (List.filter (Fs.is_file st) l), st).
Proof.
  induction 1 as [|x l Hx Hl IH]; [done|].
  simpl. unfold bind. rewrite (path_is_file_answers _ _ Hx), IH.
  by destruct (Fs.is_file st x).
Qed.

Lemma filterM_returns (l : list Path) st matches :
  fst (filterM path_is_file l st) = Ok matches →
  Forall (lookup_answers st) l ∧ matches = List.filter (Fs.is_file st) l.
Proof.
  revert matches. induction l as [|x l IH]; intros matches.
  - simpl. intros [= <-]. by split.
  - simpl. unfold bind.
    pose proof (path_test_read_only
      (fun n => match n with Fs.File _ => true | Fs.Dir => false end) x st) as Hro.
    fold path_is_file in Hro.
    destruct (path_is_file x st) as [[b|e] st1] eqn:Hx; simpl in Hro; subst st1;
      [|done].
    destruct (path_is_file_returns st x b) as [Hans ->]; [by rewrite Hx|].
    destruct (filterM path_is_file l st) as [[rest|e] st2] eqn:Hl; [|done].
    destruct (IH rest eq_refl) as [Hall ->].
    simpl. intros [= <-]. split; [by constructor|].
    by destruct (Fs.is_file st x).
Qed.

End reading.

(** ** [find_matching_paths] *)

Section find_matching_paths_lemmas.

Variable glob : Fs.state → Path → string → result (list Path).

Lemma find_under_unfold path_pattern r base pattern st :
  find_under glob path_pattern r base pattern st =
    match Fs.stat st base with
    | inl e =>
        (Raise (if Fs.ignored e then BaseNotFound base else Fs.os_error e base), st)
    | inr (Fs.File _) => (Raise (BaseNotADirectory base), st)
    | inr Fs.Dir =>
        match glob st base pattern with
        | Raise e => (Raise e, st)
        | Ok found =>
            match fst (filterM path_is_file found st) with
            | Raise e => (Raise e, st)
            | Ok matches =>
                if r && is_nil matches then
                  (Raise (Exn FileNotFoundError
                            ("No files found matching pattern: " +:+ path_pattern)), st)
                else (Ok matches, st)
            end
        end
    end.
Proof.
  unfold find_under, bind, path_exists, path_is_dir, path_test, path_glob, raise, ret.
  destruct (Fs.stat st base) as [e|[bytes|]] eqn:Hs; simpl; rewrite ?Hs; simpl.
  - by destruct (Fs.ignored e).
  - done.
  - destruct (glob st base pattern) as [found|e]; [|done].
    pose proof (filterM_read_only found st) as Hro.
    destruct (filterM path_is_file found st) as [[matches|e] st1];
      simpl in *; subst st1; [|done].
    by destruct (r && is_nil matches).
Qed.

Lemma find_literal path_pattern r st :
  first_wildcard_segment (PurePath.parse path_pattern) = None →
  find_matching_paths glob path_pattern r st =
    let path := PurePath.parse path_pattern in
    match Fs.stat st path with
    | inl e =>
        if Fs.ignored e then
          if r then (Raise (Exn FileNotFoundError ("No files found: " +:+ path_pattern)), st)
          else (Ok [], st)
        else (Raise (Fs.os_error e path), st)
    | inr n =>
        let matches := if Fs.is_file st path then [path] else [] in
        if r && is_nil matches then
          (Raise (Exn FileNotFoundError ("No files found: " +:+ path_pattern)), st)
        else (Ok matches, st)
    end.
Proof.
  intros H. unfold find_matching_paths. rewrite of_args_single.
  rewrite (wildcard_positions_nil _ H).
  unfold bind, path_is_file, path_test, Fs.is_file, raise, ret. cbv zeta.
  destruct (Fs.stat st (PurePath.parse path_pattern)) as [e|[bytes|]]; simpl.
  - destruct (Fs.ignored e); [|done]. by destruct r.
  - by rewrite andb_false_r.
  - by destruct r.
Qed.

(** The same, while the lookup of the path answers. *)
Lemma find_literal_answers path_pattern r st :
  first_wildcard_segment (PurePath.parse path_pattern) = None →
  lookup_answers st (PurePath.parse path_pattern) →
  find_matching_paths glob path_pattern r st =
    let path := PurePath.parse path_pattern in
    let matches := if Fs.is_file st path then [path] else [] in
    if r && is_nil matches then
      (Raise (Exn FileNotFoundError ("No files found: " +:+ path_pattern)), st)
    else (Ok matches, st).
Proof.
  intros H Hans. rewrite (find_literal _ _ _ H). cbv zeta.
  unfold lookup_answers, Fs.is_file in *.
  destruct (Fs.stat st (PurePath.parse path_pattern)) as [e|n]; [|done].
  rewrite Hans. by destruct r.
Qed.

Lemma find_wildcard path_pattern r k :
  first_wildcard_segment (PurePath.parse path_pattern) = Some k →
  find_matching_paths glob path_pattern r =
    find_under glob path_pattern r
      (take k (PurePath.parse path_pattern))
      (PurePath.str (drop k (PurePath.parse path_pattern))).
Proof.
  intros H. unfold find_matching_paths. rewrite of_args_single.
  destruct (wildcard_positions_cons _ _ H) as [rest ->].
  rewrite base_dir_of_take, pattern_of_drop by apply parse_well_formed.
  done.
Qed.

End find_matching_paths_lemmas.

(** ** The claims about [find_matching_paths] *)




Lemma base_errors_distinct b1 b2 : BaseNotADirectory b1 ≠ BaseNotFound b2.
Proof. unfold BaseNotADirectory, BaseNotFound. rewrite !append_cons. discriminate. Qed.

(** C5: when the pattern has a wildcard segment and the path of the
    segments before the first one exists but is not a directory, the call
    fails with [BaseNotADirectory], whatever [raise_error_if_no_match] is;
    this exception differs from every [BaseNotFound]. *)
Theorem find_base_not_a_directory glob path_pattern raise_error_if_no_match st k :
  first_wildcard_segment (PurePath.parse path_pattern) = Some k →
  Fs.exists_ st (take k (PurePath.parse path_pattern)) = true →
  Fs.is_dir st (take k (PurePath.parse path_pattern)) = false →
  find_matching_paths glob path_pattern raise_error_if_no_match st =
    (Raise (BaseNotADirectory (take k (PurePath.parse path_pattern))), st) ∧
  ∀ b, BaseNotADirectory (take k (PurePath.parse path_pattern)) ≠ BaseNotFound b.
Proof.
  intros Hk He Hd. split; [|intros b; apply base_errors_distinct].
  rewrite (find_wildcard glob _ _ _ Hk), find_under_unfold.
  unfold Fs.exists_, Fs.is_dir in He, Hd.
  by destruct (Fs.stat st _) as [e|[bytes|]].
Qed.

Lemma find_base_not_a_directory_witness :
  find_matching_paths Glob.glob "file1.txt/*.txt" false example_tree =
    (Raise (BaseNotADirectory ["file1.txt"]), example_tree) ∧
  find_matching_paths Glob.glob "file1.txt/*.txt" true example_tree =
    (Raise (BaseNotADirectory ["file1.txt"]), example_tree).
Proof.
  split.
  - apply (find_base_not_a_directory Glob.glob "file1.txt/*.txt" false example_tree 1);
      vm_compute; reflexivity.
  - apply (find_base_not_a_directory Glob.glob "file1.txt/*.txt" true example_tree 1);
      vm_compute; reflexivity.
Defined.

Lemma no_match_policy_literal path_pattern r matches :
  no_match_policy path_pattern r matches
    (if r && is_nil matches
     then Raise (Exn FileNotFoundError ("No files found: " +:+ path_pattern))
     else Ok matches).
Proof.
  unfold no_match_policy, NoMatchFound.
  destruct r, matches as [|m ms]; simpl; split; try (intros; done);
    try (split; [intros (e & [=] & _)|intros [? ?]; done]).
  - split; [done|]. intros _. eexists; split; [done|]. by left.
  - intros []; done.
Qed.

Lemma no_match_policy_wildcard path_pattern r matches :
  no_match_policy path_pattern r matches
    (if r && is_nil matches
     then Raise (Exn FileNotFoundError
                   ("No files found matching pattern: " +:+ path_pattern))
     else Ok matches).
Proof.
  unfold no_match_policy, NoMatchFound.
  destruct r, matches as [|m ms]; simpl; split; try (intros; done);
    try (split; [intros (e & [=] & _)|intros [? ?]; done]).
  - split; [done|]. intros _. eexists; split; [done|]. by right.
  - intros []; done.
Qed.






(** C8: every path that [find_matching_paths] returns is a regular file
    of the file tree it ran on, and none is a directory. *)
Theorem find_returns_regular_files glob path_pattern raise_error_if_no_match st matches :
  fst (find_matching_paths glob path_pattern raise_error_if_no_match st) = Ok matches →
  ∀ f, f ∈ matches → Fs.is_file st f = true ∧ Fs.is_dir st f = false.
Proof.
  intros Hrun f Hf.
  enough (Fs.is_file st f = true) as Hfile
    by (split; [done|by apply is_file_not_dir]).
  destruct (first_wildcard_segment (PurePath.parse path_pattern)) as [k|] eqn:Hk.
  - rewrite (find_wildcard glob _ _ _ Hk), find_under_unfold in Hrun.
    destruct (Fs.stat st _) as [e|[bytes|]]; try done.
    destruct (glob st _ _) as [found|e]; [|done].
    destruct (fst (filterM path_is_file found st)) as [ms|e] eqn:Hfilter; [|done].
    destruct (filterM_returns _ _ _ Hfilter) as [_ ->].
    destruct (raise_error_if_no_match && is_nil _); [done|].
    injection Hrun as <-.
    apply list_elem_of_In, filter_In in Hf. tauto.
  - rewrite (find_literal glob _ _ _ Hk) in Hrun. cbv zeta in Hrun.
    destruct (Fs.stat st (PurePath.parse path_pattern)) as [e|n].
    + destruct (Fs.ignored e); [|done].
      destruct raise_error_if_no_match; [done|].
      injection Hrun as <-. by apply not_elem_of_nil in Hf.
    + destruct (raise_error_if_no_match && is_nil _); [done|].
      injection Hrun as <-.
      destruct (Fs.is_file st (PurePath.parse path_pattern)) eqn:Hfile.
      * by apply list_elem_of_singleton in Hf as ->.
      * by apply not_elem_of_nil in Hf.
Qed.

(** The pattern [*] matches the directories [logs] and [data] as well;
    only the two files come back. *)
Lemma find_returns_regular_files_witness :
  Fs.is_file example_tree ["file1.txt"] = true ∧
  Fs.is_dir example_tree ["file1.txt"] = false.
Proof.
  apply (find_returns_regular_files Glob.glob "*" true example_tree
           [["file2.txt"]; ["file1.txt"]]).
  - vm_compute. reflexivity.
  - apply list_elem_of_In. simpl. auto.
Defined.

(** C9: [find_matching_paths] leaves the file tree as it found it, and a
    second call with the same arguments ends as the first one did: with
    the same exception, or with a list of the same paths. *)
Theorem find_read_only_idempotent glob path_pattern raise_error_if_no_match st :
  let first := find_matching_paths glob path_pattern raise_error_if_no_match st in
  let second := find_matching_paths glob path_pattern raise_error_if_no_match (snd first) in
  snd first = st ∧ snd second = st ∧ same_outcome (fst first) (fst second).
Proof.
  assert (snd (find_matching_paths glob path_pattern raise_error_if_no_match st) = st)
    as Hro.
  { destruct (first_wildcard_segment (PurePath.parse path_pattern)) as [k|] eqn:Hk.
    - rewrite (find_wildcard glob _ _ _ Hk), find_under_unfold.
      destruct (Fs.stat st _) as [e|[bytes|]]; try done.
      destruct (glob st _ _) as [found|e]; [|done].
      destruct (fst (filterM path_is_file found st)) as [ms|e]; [|done].
      by destruct (raise_error_if_no_match && is_nil _).
    - rewrite (find_literal glob _ _ _ Hk). cbv zeta.
      destruct (Fs.stat st _) as [e|n].
      + destruct (Fs.ignored e); [|done]. by destruct raise_error_if_no_match.
      + by destruct (raise_error_if_no_match && is_nil _). }
  cbv zeta. rewrite Hro. repeat split; [done|].
  unfold same_outcome.
  by destruct (fst (find_matching_paths glob path_pattern raise_error_if_no_match st)).
Qed.

(** C10: when the pattern has a wildcard segment, the base directory that
    is validated and handed to the matcher is the path of the segments
    before the first wildcard-bearing one, the rest of the segments being
    the pattern to match; when the first segment already bears a wildcard
    that base is [Path(".")], which resolves to the working directory. *)
Theorem find_base_dir_is_literal_prefix glob path_pattern raise_error_if_no_match k :
  first_wildcard_segment (PurePath.parse path_pattern) = Some k →
  let path := PurePath.parse path_pattern in
  base_dir_of path (hd 0 (wildcard_positions path)) = take k path ∧
  find_matching_paths glob path_pattern raise_error_if_no_match =
    find_under glob path_pattern raise_error_if_no_match
      (take k path) (PurePath.str (drop k path)) ∧
  (k = 0 →
   take k path = PurePath.of_args ["."] ∧
   ∀ st, Fs.resolve st (take k path) = inr (Fs.cwd st)).
Proof.
  intros Hk path. subst path. repeat split.
  - destruct (wildcard_positions_cons _ _ Hk) as [rest ->]. simpl hd.
    apply base_dir_of_take, parse_well_formed.
  - by apply find_wildcard.
  - by subst k.
  - by subst k.
Qed.

Lemma find_base_dir_is_literal_prefix_witness :
  find_matching_paths Glob.glob "data/*/report.csv" false =
    find_under Glob.glob "data/*/report.csv" false ["data"] "*/report.csv" ∧
  find_matching_paths Glob.glob "*.txt" false =
    find_under Glob.glob "*.txt" false [] "*.txt" ∧
  Fs.resolve example_tree (take 0 (PurePath.parse "*.txt")) = inr (Fs.cwd example_tree).
Proof.
  split; [|split].
  - apply (find_base_dir_is_literal_prefix Glob.glob "data/*/report.csv" false 1).
    reflexivity.
  - apply (find_base_dir_is_literal_prefix Glob.glob "*.txt" false 0).
    reflexivity.
  - refine (proj2 (proj2 (proj2
      (find_base_dir_is_literal_prefix Glob.glob "*.txt" false 0 _)) _) example_tree);
      reflexivity.
Defined.

(** ** Changing the file tree *)

Section writing.

Lemma only_adds_refl st : only_adds_directories st st.
Proof. by repeat split. Qed.

Lemma only_adds_trans st1 st2 st3 :
  only_adds_directories st1 st2 → only_adds_directories st2 st3 →
  only_adds_directories st1 st3.
Proof.
  intros (Hc1 & Hk1 & Hf1) (Hc2 & Hk2 & Hf2). repeat split.
  - congruence.
  - eauto.
  - eauto.
Qed.

Create HintDb fs.
#[local] Hint Resolve only_adds_refl : fs.

Lemma walk_mono (t t' : gmap (list string) Fs.node) cur segs loc :
  (∀ l, t !! l = Some Fs.Dir → t' !! l = Some Fs.Dir) →
  Fs.walk t cur segs = inr loc → Fs.walk t' cur segs = inr loc.
Proof.
  intros Hsub. revert cur. induction segs as [|s rest IH]; intros cur; [done|].
  simpl. destruct (t !! cur) as [[|]|] eqn:Hcur; try done.
  rewrite (Hsub _ Hcur). destruct (Fs.NAME_MAX <? String.length s); [done|].
  apply IH.
Qed.

Lemma resolve_mono st st' p loc :
  only_adds_directories st st' →
  Fs.resolve st p = inr loc → Fs.resolve st' p = inr loc.
Proof.
  intros (Hc & Hk & _). unfold Fs.resolve, Fs.origin. rewrite Hc.
  destruct (Fs.precheck p); [done|].
  apply walk_mono. intros l. apply Hk.
Qed.

Lemma stat_mono st st' p n :
  only_adds_directories st st' →
  Fs.stat st p = inr n → Fs.stat st' p = inr n.
Proof.
  intros Hadd. pose proof Hadd as (Hc & Hk & _). unfold Fs.stat.
  destruct (Fs.resolve st p) as [e|loc] eqn:Hw; [done|].
  rewrite (resolve_mono _ _ _ _ Hadd Hw).
  destruct (Fs.tree st !! loc) as [m|] eqn:Hl; [|done].
  intros [= <-]. by rewrite (Hk _ _ Hl).
Qed.

Lemma stat_only_adds st st' p :
  only_adds_directories st st' →
  Fs.exists_ st p = true → Fs.stat st' p = Fs.stat st p.
Proof.
  intros Hadd. unfold Fs.exists_.
  destruct (Fs.stat st p) as [e|n] eqn:Hs; [done|]. intros _.
  by apply stat_mono with st.
Qed.

Lemma os_mkdir_inv st p st' :
  Fs.os_mkdir st p = inr st' →
  ∃ loc, Fs.resolve st p = inr loc ∧ Fs.tree st !! loc = None ∧
         st' = Fs.set_tree st (<[loc := Fs.Dir]> (Fs.tree st)).
Proof.
  unfold Fs.os_mkdir. destruct (Fs.resolve st p) as [e|loc]; [done|].
  destruct (Fs.tree st !! loc) eqn:Hl; [done|].
  destruct (Fs.creatable p); [|done]. intros [= <-]. by exists loc.
Qed.

Lemma os_mkdir_adds st p st' :
  Fs.os_mkdir st p = inr st' → only_adds_directories st st'.
Proof.
  intros (loc & _ & Hnone & ->)%os_mkdir_inv. repeat split; simpl.
  - intros l n Hl. rewrite lookup_insert_ne; [done|]. congruence.
  - intros l bytes. destruct (decide (loc = l)) as [->|Hne].
    + by rewrite lookup_insert_eq.
    + by rewrite lookup_insert_ne.
Qed.

#[local] Hint Resolve os_mkdir_adds : fs.

Lemma os_mkdir_is_dir st p st' :
  Fs.os_mkdir st p = inr st' → Fs.is_dir st' p = true.
Proof.
  intros Hmk. pose proof (os_mkdir_adds _ _ _ Hmk) as Hadd.
  apply os_mkdir_inv in Hmk as (loc & Hres & Hnone & ->).
  unfold Fs.is_dir, Fs.stat.
  rewrite (resolve_mono _ _ _ _ Hadd Hres). simpl.
  by rewrite lookup_insert_eq.
Qed.

Lemma mkdir_leaf_adds self exist_ok st :
  only_adds_directories st (snd (Fs.mkdir_leaf self exist_ok st)).
Proof.
  unfold Fs.mkdir_leaf. destruct (Fs.os_mkdir st self) as [e|st'] eqn:Hmk.
  - destruct e; simpl; auto with fs;
      destruct (negb exist_ok || negb (Fs.is_dir st self)); auto with fs.
  - simpl. eauto with fs.
Qed.

#[local] Hint Resolve mkdir_leaf_adds : fs.

Lemma mkdir_leaf_ok self exist_ok st st' :
  Fs.mkdir_leaf self exist_ok st = (Ok tt, st') → Fs.is_dir st' self = true.
Proof.
  unfold Fs.mkdir_leaf. destruct (Fs.os_mkdir st self) as [e|st1] eqn:Hmk.
  - destruct e; try done;
      destruct (Fs.is_dir st self) eqn:Hd; destruct exist_ok; simpl; try done;
      by intros [= <-].
  - intros [= <-]. by apply os_mkdir_is_dir with st.
Qed.

Lemma mkdir_from_adds anchor rtail parents exist_ok st :
  only_adds_directories st (snd (Fs.mkdir_from anchor rtail parents exist_ok st)).
Proof.
  revert parents exist_ok st.
  induction rtail as [|s rparent IH]; intros parents exist_ok st; simpl;
    destruct (Fs.os_mkdir st _) as [e|st'] eqn:Hmk;
    try (simpl; by eauto with fs);
    destruct e; simpl;
    try (destruct (negb exist_ok || negb (Fs.is_dir st _)); by auto with fs);
    try (destruct parents; by auto with fs).
  destruct parents; [|auto with fs].
  pose proof (IH true true st) as Hin.
  destruct (Fs.mkdir_from anchor rparent true true st) as [[[]|e] st1]; simpl in *.
  - eauto using only_adds_trans with fs.
  - done.
Qed.

Lemma mkdir_from_ok anchor rtail parents exist_ok st st' :
  Fs.mkdir_from anchor rtail parents exist_ok st = (Ok tt, st') →
  Fs.is_dir st' (anchor ++ rev rtail) = true.
Proof.
  destruct rtail as [|s rparent]; simpl;
    destruct (Fs.os_mkdir st _) as [e|st1] eqn:Hmk;
    try (intros [= <-]; by apply os_mkdir_is_dir in Hmk);
    destruct e;
    try (destruct (Fs.is_dir st _) eqn:Hd; destruct exist_ok; simpl; try done;
         by intros [= <-]);
    try (by destruct parents).
  destruct parents; [|done].
  destruct (Fs.mkdir_from anchor rparent true true st) as [[[]|e] st2]; [|done].
  apply mkdir_leaf_ok.
Qed.

Lemma anchor_tail p : Fs.anchor p ++ PurePath.tail p = p.
Proof.
  unfold Fs.anchor, PurePath.root, PurePath.tail.
  destruct p as [|r t]; [done|]. destruct (PurePath.is_root r) eqn:Hr; [|done].
  by destruct (is_root_cases _ Hr) as [-> | ->].
Qed.

Lemma mkdir_adds p parents exist_ok st :
  only_adds_directories st (snd (Fs.mkdir p parents exist_ok st)).
Proof. apply mkdir_from_adds. Qed.

Lemma mkdir_ok p parents exist_ok st st' :
  Fs.mkdir p parents exist_ok st = (Ok tt, st') → Fs.is_dir st' p = true.
Proof.
  intros H%mkdir_from_ok. by rewrite rev_involutive, anchor_tail in H.
Qed.

Lemma walk_delete_file (t : gmap (list string) Fs.node) l0 bytes cur segs loc :
  t !! l0 = Some (Fs.File bytes) →
  Fs.walk t cur segs = inr loc → Fs.walk (delete l0 t) cur segs = inr loc.
Proof.
  intros Hfile. revert cur. induction segs as [|s rest IH]; intros cur; [done|].
  simpl. destruct (t !! cur) as [[|]|] eqn:Hcur; try done.
  rewrite lookup_delete_ne by congruence. rewrite Hcur.
  destruct (Fs.NAME_MAX <? String.length s); [done|]. apply IH.
Qed.

Lemma resolve_delete_file st l0 bytes p loc :
  Fs.tree st !! l0 = Some (Fs.File bytes) →
  Fs.resolve st p = inr loc →
  Fs.resolve (Fs.set_tree st (delete l0 (Fs.tree st))) p = inr loc.
Proof.
  intros Hfile. unfold Fs.resolve, Fs.origin. simpl.
  destruct (Fs.precheck p); [done|]. by apply walk_delete_file with bytes.
Qed.

Lemma unlink_file st p :
  Fs.is_file st p = true →
  ∃ loc bytes,
    Fs.resolve st p = inr loc ∧ Fs.tree st !! loc = Some (Fs.File bytes) ∧
    Fs.unlink p st = (Ok tt, Fs.set_tree st (delete loc (Fs.tree st))) ∧
    Fs.exists_ (Fs.set_tree st (delete loc (Fs.tree st))) p = false.
Proof.
  unfold Fs.is_file, Fs.unlink, Fs.os_unlink, Fs.exists_, Fs.stat.
  destruct (Fs.resolve st p) as [e|loc] eqn:Hres; [done|].
  destruct (Fs.tree st !! loc) as [[bytes|]|] eqn:Hl; try done. intros _.
  exists loc, bytes. repeat split; [done|].
  rewrite (resolve_delete_file _ _ _ _ _ Hl Hres). simpl.
  by rewrite lookup_delete_eq.
Qed.

Lemma unlink_dir st p :
  Fs.is_dir st p = true →
  Fs.unlink p st = (Raise (Fs.os_error EISDIR p), st).
Proof.
  unfold Fs.is_dir, Fs.unlink, Fs.os_unlink, Fs.stat.
  destruct (Fs.resolve st p) as [e|loc]; [done|].
  by destruct (Fs.tree st !! loc) as [[bytes|]|].
Qed.

Lemma load_shutil st : load_global "shutil" st = (Raise shutil_undefined, st).
Proof. reflexivity. Qed.

(** [move_file] up to the lookup of [shutil], which always fails. *)
Lemma move_file_unfold source destination delete_original st :
  move_file source destination delete_original st =
    let src := PurePath.of_args [source] in
    let dst := PurePath.of_args [destination] in
    match Fs.stat st src with
    | inl e =>
        (Raise (if Fs.ignored e
                then Exn FileNotFoundError ("File not found: " +:+ PurePath.str src)
                else Fs.os_error e src), st)
    | inr _ =>
        match fst (path_is_dir dst st) with
        | Raise e => (Raise e, st)
        | Ok _ =>
            let parent := PurePath.parent (resolved_destination st source destination) in
            match Fs.mkdir parent true true st with
            | (Ok _, st1) => (Raise shutil_undefined, st1)
            | (Raise e, st1) => (Raise e, st1)
            end
        end
    end.
Proof.
  unfold move_file, resolved_destination, bind, raise. cbv zeta.
  unfold path_exists at 1. unfold path_test at 1.
  destruct (Fs.stat st (PurePath.of_args [source])) as [e|n]; simpl.
  - by destruct (Fs.ignored e).
  - unfold path_is_dir, path_test, Fs.is_dir.
    destruct (Fs.stat st (PurePath.of_args [destination])) as [e|[bytes|]]; simpl.
    + destruct (Fs.ignored e); simpl; [|done].
      by destruct (Fs.mkdir _ true true st) as [[[]|e'] st1].
    + by destruct (Fs.mkdir _ true true st) as [[[]|e'] st1].
    + by destruct (Fs.mkdir _ true true st) as [[[]|e'] st1].
Qed.

End writing.

(** ** The claims about [move_file] and [delete_file] *)

(** C1: scenario D on the code.  The directories [x] and [x/y] are made,
    then the lookup of [shutil] raises [NameError]: the source is still
    there with its bytes and no destination file exists. *)
Theorem move_file_scenario_D :
  let run := move_file "a/b/file.txt" "x/y/file.txt" false scenario_D_tree in
  fst run = Raise shutil_undefined ∧
  Fs.exists_ scenario_D_tree ["x"; "y"] = false ∧
  Fs.is_dir (snd run) ["x"; "y"] = true ∧
  Fs.stat (snd run) ["a"; "b"; "file.txt"] = inr (Fs.File (bytes_of "payload")) ∧
  Fs.exists_ (snd run) ["x"; "y"; "file.txt"] = false.
Proof. vm_compute. repeat split; reflexivity. Qed.







(** ** Runs on the tree of [examples.py] *)

Example parse_examples :
  PurePath.parse "a//b/./c/" = ["a"; "b"; "c"] ∧
  PurePath.parse "///a/*.txt" = ["/"; "a"; "*.txt"] ∧
  PurePath.parse "//a" = ["//"; "a"] ∧
  PurePath.parse "." = [] ∧ PurePath.parse "" = [].
Proof. repeat split; reflexivity. Qed.

Example str_examples :
  PurePath.str ["/"; "a"; "b"] = "/a/b" ∧ PurePath.str ["a"; "b"] = "a/b" ∧
  PurePath.str [] = "." ∧ PurePath.str ["/"] = "/".
Proof. repeat split; reflexivity. Qed.

Example parent_examples :
  PurePath.truediv ["x"; "y"] "file.txt" = ["x"; "y"; "file.txt"] ∧
  PurePath.truediv [] "file.txt" = ["file.txt"] ∧
  PurePath.parent ["x"; "y"; "file.txt"] = ["x"; "y"] ∧
  PurePath.parent ["/"] = ["/"] ∧ PurePath.parent [] = [].
Proof. repeat split; reflexivity. Qed.

Example wildcard_positions_example :
  wildcard_positions (PurePath.parse "data/*/report?.csv") = [1; 2].
Proof. reflexivity. Qed.

(** Scenario A: [logs/2024/*.log] finds [app.log] and [error.log]. *)
Example scenario_A :
  ∃ found,
    fst (find_matching_paths Glob.glob "logs/2024/*.log" false example_tree) = Ok found ∧
    ∀ f, f ∈ found ↔ f = ["logs"; "2024"; "app.log"] ∨ f = ["logs"; "2024"; "error.log"].
Proof.
  eexists. split; [vm_compute; reflexivity|].
  intros f. rewrite !elem_of_cons, elem_of_nil. tauto.
Qed.

Example recursive_example :
  fst (find_matching_paths Glob.glob "**/*.csv" true example_tree) =
    Ok [["data"; "jan"; "report.csv"]; ["data"; "feb"; "report.csv"]].
Proof. vm_compute. reflexivity. Qed.

Example class_example :
  fst (find_matching_paths Glob.glob "file[!1].txt" true example_tree) =
    Ok [["file2.txt"]].
Proof. vm_compute. reflexivity. Qed.

(** * Further properties of [find.py] *)

(** ** More on paths *)

Section more_path_lemmas.

Import PurePath.

Lemma splitroot_append a s r rel :
  splitroot a = (r, rel) → Str.is_empty rel = false →
  splitroot (a +:+ s) = (r, rel +:+ s).
Proof.
  unfold splitroot. intros Hs Hrel.
  destruct a as [|c0 [|c1 [|c2 a]]]; rewrite ?append_cons, ?append_nil;
    repeat match type of Hs with
           | context [if ?b then _ else _] => destruct b
           end;
    injection Hs as <- <-; rewrite ?append_cons, ?append_nil; done.
Qed.

Lemma join_segments_nonempty t :
  Forall (fun x => is_segment x = true) t → t ≠ [] →
  Str.is_empty (Str.join "/" t) = false ∧ Str.endswith sep (Str.join "/" t) = false.
Proof.
  induction 1 as [|x t Hx Ht IH]; [done|]. intros _.
  destruct (segment_facts x Hx) as (Hne & _ & _ & He & _).
  destruct t as [|y t]; [done|].
  destruct IH as [IHne IHe]; [done|].
  change (Str.join "/" (x :: y :: t)) with (x +:+ String sep (Str.join "/" (y :: t))).
  split.
  - destruct x; [done|]. by rewrite append_cons.
  - rewrite endswith_append by done.
    destruct (Str.join "/" (y :: t)) eqn:Hj; [done|]. exact IHe.
Qed.

(** The text of a well-formed path and how it splits. *)
Lemma str_splitroot p :
  well_formed p →
  (p = [] ∧ str p = ".") ∨
  (p ≠ [] ∧ str p = root p +:+ Str.join "/" (tail p) ∧
   splitroot (str p) = (root p, Str.join "/" (tail p))).
Proof.
  intros [(Hp & Ht & Hr)|(r & t & -> & Hr & Ht & Hroot & Hseg)]%well_formed_cases.
  - destruct p as [|a t]; [by left|]. right. split; [done|].
    unfold str. rewrite Ht, Hr, append_nil.
    destruct (join_segments_nonempty _ Hp) as [-> _]; [done|].
    split; [done|]. apply splitroot_relative. by apply join_segments_start.
  - right. split; [done|]. unfold str. rewrite Ht, Hroot.
    assert (Str.is_empty (r +:+ Str.join "/" t) = false) as ->.
    { by destruct (is_root_cases _ Hr) as [-> | ->]. }
    split; [done|]. apply splitroot_rooted; [done|]. by apply join_segments_start.
Qed.

(** [str] and [Path] are inverse on a path. *)
Lemma parse_str p : well_formed p → parse (str p) = p.
Proof.
  intros Hp. destruct (str_splitroot p Hp) as [[-> ->]|(Hne & _ & Hs)]; [done|].
  unfold parse. rewrite Hs.
  apply well_formed_cases in Hp
    as [(Hp & Ht & Hr)|(r & t & -> & Hr & Ht & Hroot & Hseg)].
  - rewrite Hr, Ht. simpl Str.is_empty. cbv iota. by apply parse_join_segments.
  - rewrite Hroot, Ht, parse_join_segments by done.
    by destruct (is_root_cases _ Hr) as [-> | ->].
Qed.

Lemma str_nonempty p : well_formed p → Str.is_empty (str p) = false.
Proof.
  intros Hp. unfold str.
  by destruct (Str.is_empty (root p +:+ Str.join "/" (tail p))) eqn:He.
Qed.

Lemma str_endswith p :
  well_formed p → Str.endswith sep (str p) = is_nil (tail p) && negb (is_nil p).
Proof.
  intros Hp. destruct (str_splitroot p Hp) as [[-> ->]|(Hne & -> & _)]; [done|].
  apply well_formed_cases in Hp
    as [(Hp & Ht & Hr)|(r & t & -> & Hr & Ht & Hroot & Hseg)].
  - rewrite Hr, Ht, append_nil.
    destruct (join_segments_nonempty _ Hp Hne) as [_ ->]. by destruct p.
  - rewrite Hroot, Ht. destruct t as [|x t].
    + by destruct (is_root_cases _ Hr) as [-> | ->].
    + destruct (join_segments_nonempty (x :: t) Hseg) as [Hj He]; [done|].
      by rewrite endswith_append, He.
Qed.

(** [p / key] for a relative [key]: the segments of [key] are appended. *)
Lemma truediv_relative p key :
  well_formed p → Str.startswith sep key = false →
  truediv p key = p ++ List.filter keep_segment (Str.split sep key).
Proof.
  intros Hp Hkey. unfold truediv, of_args, posix_join. simpl fold_left.
  unfold join_step. rewrite Hkey, (str_nonempty p Hp), (str_endswith p Hp).
  simpl orb.
  destruct (str_splitroot p Hp) as [[-> Hstr]|(Hne & Hstr & Hs)].
  - rewrite Hstr. simpl andb. cbv iota. unfold parse.
    change ("." +:+ "/" +:+ key) with ("." +:+ String sep key).
    rewrite splitroot_relative by done. simpl Str.is_empty. cbv iota.
    by rewrite split_app, List.filter_app.
  - destruct (is_nil (tail p)) eqn:Htail.
    + destruct p as [|a t]; [done|]. simpl andb. cbv iota.
      apply well_formed_cases in Hp
        as [(Hp & Ht & Hr)|(r & t' & [= -> ->] & Hr & Ht & Hroot & Hseg)].
      { rewrite Ht in Htail. done. }
      rewrite Ht in Htail. destruct t'; [|done].
      rewrite Hstr, Hroot, Ht. simpl Str.join. rewrite append_empty_r.
      unfold parse. rewrite splitroot_rooted by done.
      by destruct (is_root_cases _ Hr) as [-> | ->].
    + simpl andb. cbv iota. unfold parse.
      assert (Str.is_empty (Str.join "/" (tail p)) = false) as Hj.
      { destruct (tail p) as [|x t] eqn:Ht; [done|].
        apply (join_segments_nonempty (x :: t)); [|done].
        unfold well_formed in Hp. by rewrite Ht in Hp. }
      rewrite (splitroot_append _ _ _ _ Hs Hj).
      change ("/" +:+ key) with (String sep key).
      rewrite split_app, List.filter_app.
      pose proof (parse_str p Hp) as Hps. unfold parse in Hps. rewrite Hs in Hps.
      destruct (Str.is_empty (root p)).
      * by rewrite Hps.
      * by rewrite app_comm_cons, Hps.
Qed.

Lemma root_no_wildcard r : is_root r = true → has_wildcard r = false.
Proof. by intros [-> | ->]%is_root_cases. Qed.

Lemma well_formed_app p t :
  well_formed p → Forall (fun x => is_segment x = true) t → well_formed (p ++ t).
Proof.
  intros [(Hp & _ & _)|(r & t' & -> & Hr & _ & _ & Hseg)]%well_formed_cases Ht.
  - unfold well_formed.
    destruct (segments_tail (p ++ t)) as [-> _]; by apply Forall_app.
  - unfold well_formed, tail. simpl. rewrite Hr. by apply Forall_app.
Qed.

End more_path_lemmas.

(** ** More on the decomposition *)

Section more_decomposition.

Import PurePath.

Lemma contains_split c sp s :
  c ≠ sp → Str.contains c s = existsb (Str.contains c) (Str.split sp s).
Proof.
  intros Hc. induction s as [|d r IH]; [done|]. simpl.
  destruct (Ascii.eqb_spec d sp) as [->|Hd].
  - simpl. rewrite <- IH.
    destruct (Ascii.eqb_spec sp c) as [Heq|_]; [by subst c|done].
  - pose proof (split_nonempty sp r) as Hne.
    destruct (Str.split sp r) as [|x xs]; [done|].
    rewrite IH. simpl. by rewrite orb_assoc.
Qed.

Lemma contains_kept c l :
  c ≠ "."%char →
  existsb (Str.contains c) (List.filter keep_segment l) = existsb (Str.contains c) l.
Proof.
  intros Hc. induction l as [|x l IH]; [done|]. simpl.
  destruct (keep_segment x) eqn:Hk; simpl; rewrite IH; [done|].
  unfold keep_segment in Hk.
  apply andb_false_iff in Hk as [He%negb_false_iff | Hd%negb_false_iff].
  - by destruct x.
  - apply String.eqb_eq in Hd as ->.
    change (Str.contains c ".") with (Ascii.eqb "." c || false).
    destruct (Ascii.eqb_spec "."%char c) as [Heq|_]; [by subst c|done].
Qed.

Lemma contains_parse c s :
  c ≠ sep → c ≠ "."%char →
  Str.contains c s = existsb (Str.contains c) (parse s).
Proof.
  intros Hsep Hdot.
  assert (∀ t, Str.contains c (String sep t) = Str.contains c t) as Hskip.
  { intros t. change (Str.contains c (String sep t))
      with (Ascii.eqb sep c || Str.contains c t).
    destruct (Ascii.eqb_spec sep c) as [Heq|_]; [by subst c|done]. }
  assert (Str.contains c "/" = false ∧ Str.contains c "//" = false) as [Hr1 Hr2].
  { change "//" with (String sep "/"). change "/" with (String sep "").
    by rewrite !Hskip. }
  unfold parse.
  destruct (splitroot s) as [r rel] eqn:Hs.
  assert (Str.contains c s = Str.contains c rel ∧ (r = "" ∨ Str.contains c r = false))
    as [-> Hr].
  { unfold splitroot in Hs.
    destruct s as [|c0 [|c1 [|c2 s]]]; simpl in Hs;
      repeat match type of Hs with
             | context [if (?a =? ?b)%char then _ else _] =>
                 destruct (Ascii.eqb_spec a b) as [->|?]
             end;
      injection Hs as <- <-; rewrite ?Hskip; auto. }
  rewrite (contains_split c sep rel Hsep), <- (contains_kept c _ Hdot).
  destruct Hr as [->|Hr]; [done|].
  destruct (Str.is_empty r); [done|]. simpl. by rewrite Hr.
Qed.

Lemma existsb_has_wildcard (l : list string) :
  existsb has_wildcard l =
  existsb (fun c => existsb (Str.contains c) l) WILDCARD_CHARS.
Proof.
  induction l as [|x l IH]; [done|]. simpl in *. rewrite IH.
  unfold has_wildcard. simpl.
  destruct (Str.contains "*" x), (Str.contains "?" x), (Str.contains "[" x);
    simpl; rewrite ?orb_true_r, ?orb_false_r; done.
Qed.

Lemma has_wildcard_parse s : has_wildcard s = existsb has_wildcard (parse s).
Proof.
  rewrite existsb_has_wildcard. unfold has_wildcard at 1. simpl.
  by rewrite <- !contains_parse.
Qed.

Lemma positions_from_spec n (ps : list string) i :
  i ∈ map fst (List.filter (fun ip : nat * string => has_wildcard (snd ip))
                 (combine (seq n (length ps)) ps))
  ↔ ∃ s, n ≤ i ∧ ps !! (i - n) = Some s ∧ has_wildcard s = true.
Proof.
  revert n. induction ps as [|x ps IH]; intros n; simpl.
  - rewrite elem_of_nil. split; [done|]. by intros (s & _ & ? & _).
  - assert ((∃ s, n ≤ i ∧ (x :: ps) !! (i - n) = Some s ∧ has_wildcard s = true)
            ↔ (i = n ∧ has_wildcard x = true) ∨
              (∃ s, S n ≤ i ∧ ps !! (i - S n) = Some s ∧ has_wildcard s = true))
      as ->.
    { split.
      - intros (s & Hle & Hl & Hw). destruct (decide (i = n)) as [->|Hne].
        + left. rewrite Nat.sub_diag in Hl. by injection Hl as ->.
        + right. exists s. split; [lia|]. split; [|done].
          replace (i - n) with (S (i - S n)) in Hl by lia. done.
      - intros [[-> Hw]|(s & Hle & Hl & Hw)].
        + exists x. rewrite Nat.sub_diag. by repeat split.
        + exists s. split; [lia|]. split; [|done].
          replace (i - n) with (S (i - S n)) by lia. done. }
    destruct (has_wildcard x) eqn:Hx; simpl.
    + rewrite elem_of_cons, IH. split; (intros [H|H]; [left|right]); tauto.
    + rewrite IH. split; [by right|]. by intros [[_ ?]|?].
Qed.

Lemma positions_from_sorted n (ps : list string) :
  StronglySorted lt
    (map fst (List.filter (fun ip : nat * string => has_wildcard (snd ip))
                (combine (seq n (length ps)) ps))).
Proof.
  revert n. induction ps as [|x ps IH]; intros n; simpl; [constructor|].
  destruct (has_wildcard x); simpl; [|apply IH].
  constructor; [apply IH|].
  apply Forall_forall. intros i (s & Hle & _)%positions_from_spec. lia.
Qed.

Lemma drop_first_wildcard (path : Path) k :
  well_formed path → first_wildcard_segment path = Some k →
  ∃ s rest, drop k path = s :: rest ∧ has_wildcard s = true ∧
            Forall (fun x => is_segment x = true) (s :: rest).
Proof.
  intros Hwf Hk. destruct (first_wildcard_Some _ _ Hk) as [(s & Hs & Hw) _].
  exists s, (drop (S k) path). rewrite <- (drop_S _ _ _ Hs). repeat split; [done|].
  apply well_formed_cases in Hwf
    as [(Hp & _ & _)|(r & t & -> & Hr & _ & _ & Hseg)].
  - by apply Forall_drop.
  - destruct k as [|k].
    + simpl in Hs. injection Hs as <-. by rewrite (root_no_wildcard _ Hr) in Hw.
    + change (drop (S k) (r :: t)) with (drop k t). by apply Forall_drop.
Qed.

Lemma first_wildcard_from_positions (ps : list string) :
  wildcard_positions ps = [] → first_wildcard_segment ps = None.
Proof.
  intros H. rewrite <- wildcard_positions_head. by rewrite H.
Qed.

End more_decomposition.

(** X1: a pattern is looked up as a literal path, with no wildcard
    position, exactly when its text holds none of the characters of
    [WILDCARD_CHARS]. *)
Theorem literal_iff_no_wildcard_character path_pattern :
  wildcard_positions (PurePath.of_args [path_pattern]) = [] ↔
  has_wildcard path_pattern = false.
Proof.
  rewrite of_args_single, has_wildcard_parse. split.
  - intros H%first_wildcard_from_positions%first_wildcard_None.
    apply not_true_iff_false. intros (x & Hx & Hw)%existsb_exists.
    rewrite Forall_forall in H. apply list_elem_of_In in Hx.
    by rewrite (H x Hx) in Hw.
  - intros H. apply wildcard_positions_nil, first_wildcard_None, Forall_forall.
    intros x Hx%list_elem_of_In. apply not_true_iff_false. intros Hw.
    apply not_true_iff_false in H. apply H, existsb_exists. eauto.
Qed.

(** X2: [wildcard_positions] lists, in increasing order, exactly the
    indices of the parts that hold a wildcard character. *)
Theorem wildcard_positions_spec (parts : list string) :
  (∀ i, i ∈ wildcard_positions parts ↔
        ∃ part, parts !! i = Some part ∧ has_wildcard part = true) ∧
  StronglySorted lt (wildcard_positions parts).
Proof.
  split; [|apply positions_from_sorted].
  intros i. unfold wildcard_positions, enumerate. rewrite positions_from_spec.
  rewrite Nat.sub_0_r. split.
  - intros (s & _ & ? & ?). eauto.
  - intros (s & ? & ?). exists s. split; [lia|done].
Qed.

Lemma first_wildcard_of_positions (ps : list string) k rest :
  wildcard_positions ps = k :: rest → first_wildcard_segment ps = Some k.
Proof. intros H. rewrite <- wildcard_positions_head. by rewrite H. Qed.

Lemma pattern_of_segments (path : Path) k :
  well_formed path → first_wildcard_segment path = Some k →
  ∃ s rest,
    drop k path = s :: rest ∧ has_wildcard s = true ∧
    pattern_of path k = Str.join "/" (s :: rest) ∧
    Forall (fun x => is_segment x = true) (s :: rest).
Proof.
  intros Hwf Hk.
  destruct (drop_first_wildcard _ _ Hwf Hk) as (s & rest & Hd & Hw & Hseg).
  exists s, rest. repeat split; try done.
  rewrite pattern_of_drop, Hd by done. unfold PurePath.str.
  destruct (segments_tail _ Hseg) as [-> ->]. rewrite append_nil.
  by destruct (join_segments_nonempty _ Hseg) as [-> _].
Qed.

(** X3: the decomposition loses nothing.  With [k] the first wildcard
    position, the base directory joined with the pattern that goes to the
    matcher is the path of the pattern again. *)
Theorem base_dir_joined_with_pattern path_pattern k rest :
  let path := PurePath.of_args [path_pattern] in
  wildcard_positions path = k :: rest →
  PurePath.truediv (base_dir_of path k) (pattern_of path k) = path.
Proof.
  intros path Hpos. subst path. rewrite of_args_single in *.
  pose proof (parse_well_formed path_pattern) as Hwf.
  apply first_wildcard_of_positions in Hpos.
  destruct (pattern_of_segments _ _ Hwf Hpos) as (s & tl & Hd & _ & -> & Hseg).
  rewrite base_dir_of_take by done.
  rewrite truediv_relative.
  - by rewrite parse_join_segments, <- Hd, take_drop.
  - by apply well_formed_take.
  - by apply join_segments_start.
Qed.

Lemma base_dir_joined_with_pattern_witness :
  PurePath.truediv ["data"] "*/report.csv" = ["data"; "*"; "report.csv"] ∧
  PurePath.truediv [] "*.txt" = ["*.txt"] ∧
  PurePath.truediv ["/"; "srv"] "**/*.log" = ["/"; "srv"; "**"; "*.log"].
Proof.
  split; [|split].
  - apply (base_dir_joined_with_pattern "data/*/report.csv" 1 []). reflexivity.
  - apply (base_dir_joined_with_pattern "*.txt" 0 []). reflexivity.
  - apply (base_dir_joined_with_pattern "/srv/**/*.log" 2 [3]). reflexivity.
Defined.

(** X4: what the matcher is asked.  The pattern is the text of the parts
    from the first wildcard part on: it is relative, it is not empty, and
    its first segment holds a wildcard character; no part of the base
    directory holds one. *)
Theorem matcher_gets_relative_pattern path_pattern k rest :
  let path := PurePath.of_args [path_pattern] in
  wildcard_positions path = k :: rest →
  PurePath.parse (pattern_of path k) = drop k path ∧
  Str.startswith "/" (pattern_of path k) = false ∧
  (∃ first others, drop k path = first :: others ∧ has_wildcard first = true) ∧
  Forall (fun part => has_wildcard part = false) (base_dir_of path k).
Proof.
  intros path Hpos. subst path. rewrite of_args_single in *.
  pose proof (parse_well_formed path_pattern) as Hwf.
  apply first_wildcard_of_positions in Hpos.
  destruct (pattern_of_segments _ _ Hwf Hpos) as (s & tl & Hd & Hw & Hpat & Hseg).
  repeat split.
  - rewrite pattern_of_drop by done. apply parse_str. by apply well_formed_drop.
  - rewrite Hpat. by apply join_segments_start.
  - by exists s, tl.
  - rewrite base_dir_of_take by done.
    destruct (first_wildcard_Some _ _ Hpos) as [_ Hbefore].
    apply Forall_forall. intros x Hx.
    apply list_elem_of_lookup in Hx as [i Hi].
    apply lookup_take_Some in Hi as [Hi Hlt]. by apply (Hbefore i).
Qed.

Lemma matcher_gets_relative_pattern_witness :
  PurePath.parse (pattern_of ["/"; "srv"; "**"; "*.log"] 2) = ["**"; "*.log"] ∧
  Str.startswith "/" (pattern_of ["/"; "srv"; "**"; "*.log"] 2) = false.
Proof.
  destruct (matcher_gets_relative_pattern "/srv/**/*.log" 2 [3]) as (H1 & H2 & _).
  - reflexivity.
  - split; [exact H1|exact H2].
Defined.

(** ** More on [find_matching_paths] *)

(** X5: [raise_error_if_no_match] matters only when nothing is found.
    If the call without it returns the empty list, the call with it
    raises [FileNotFoundError]; in every other case both calls end the
    same way, so that a list returned with the flag set is never empty. *)
Theorem flag_matters_only_when_empty glob path_pattern st :
  let quiet := fst (find_matching_paths glob path_pattern false st) in
  let strict := fst (find_matching_paths glob path_pattern true st) in
  (quiet = Ok [] → ∃ e, strict = Raise e ∧ NoMatchFound path_pattern e) ∧
  (quiet ≠ Ok [] → strict = quiet) ∧
  strict ≠ Ok [].
Proof.
  cbv zeta.
  destruct (first_wildcard_segment (PurePath.parse path_pattern)) as [k|] eqn:Hk.
  - rewrite !(find_wildcard glob _ _ _ Hk), !find_under_unfold.
    destruct (Fs.stat st _) as [e|[bytes|]]; try (by repeat split).
    destruct (glob st _ _) as [found|e]; [|by repeat split].
    destruct (fst (filterM path_is_file found st)) as [[|f fs]|e]; simpl.
    + repeat split; try done. intros _. eexists. split; [done|]. by right.
    + by repeat split.
    + by repeat split.
  - rewrite !(find_literal glob _ _ _ Hk). cbv zeta.
    destruct (Fs.stat st _) as [e|n].
    + destruct (Fs.ignored e); [|by repeat split].
      repeat split; try done. intros _. eexists. split; [done|]. by left.
    + destruct (Fs.is_file st _); simpl.
      * by repeat split.
      * repeat split; try done. intros _. eexists. split; [done|]. by left.
Qed.

Lemma flag_matters_only_when_empty_witness :
  (∃ e, fst (find_matching_paths Glob.glob "*.xyz" true example_tree) = Raise e ∧
        NoMatchFound "*.xyz" e) ∧
  fst (find_matching_paths Glob.glob "*.txt" true example_tree) =
  fst (find_matching_paths Glob.glob "*.txt" false example_tree).
Proof.
  split.
  - apply (flag_matters_only_when_empty Glob.glob "*.xyz" example_tree).
    vm_compute. reflexivity.
  - apply (flag_matters_only_when_empty Glob.glob "*.txt" example_tree).
    vm_compute. discriminate.
Defined.

Lemma filterM_raises (l : list Path) st e :
  fst (filterM path_is_file l st) = Raise e →
  ∃ f code, f ∈ l ∧ Fs.stat st f = inl code ∧ Fs.ignored code = false ∧
            e = Fs.os_error code f.
Proof.
  induction l as [|x l IH]; [done|]. simpl. unfold bind.
  pose proof (path_test_read_only
    (fun n => match n with Fs.File _ => true | Fs.Dir => false end) x st) as Hro.
  fold path_is_file in Hro.
  destruct (path_is_file x st) as [[b|e'] st1] eqn:Hx; simpl in Hro; subst st1.
  - destruct (filterM path_is_file l st) as [[rest|e'] st2] eqn:Hl; [done|].
    simpl. intros [= ->]. destruct (IH eq_refl) as (f & code & Hf & Hrest).
    exists f, code. split; [by right|done].
  - simpl. intros [= ->]. unfold path_is_file, path_test in Hx.
    destruct (Fs.stat st x) as [code|n] eqn:Hs; [|done].
    destruct (Fs.ignored code) eqn:Hi; [done|]. injection Hx as <-.
    exists x, code. split; [by left|done].
Qed.



(** X7: only the parts of the pattern count.  Two pattern texts with the
    same parts, as with doubled separators or [.] segments, give the same
    outcome when [raise_error_if_no_match] is off. *)
Theorem find_same_parts_same_outcome glob pattern1 pattern2 st :
  PurePath.of_args [pattern1] = PurePath.of_args [pattern2] →
  find_matching_paths glob pattern1 false st =
  find_matching_paths glob pattern2 false st.
Proof.
  intros Hparts. unfold find_matching_paths. rewrite Hparts.
  destruct (wildcard_positions (PurePath.of_args [pattern2])) as [|k rest]; [done|].
  rewrite !find_under_unfold.
  destruct (Fs.stat st _) as [e|[bytes|]]; [done|done|].
  destruct (glob st _ _) as [found|e]; [|done].
  by destruct (fst (filterM path_is_file found st)) as [matches|e].
Qed.

Lemma find_same_parts_same_outcome_witness :
  find_matching_paths Glob.glob "./logs//2024/*.log" false example_tree =
  find_matching_paths Glob.glob "logs/2024/*.log" false example_tree.
Proof.
  apply (find_same_parts_same_outcome Glob.glob
           "./logs//2024/*.log" "logs/2024/*.log" example_tree).
  reflexivity.
Defined.

(** ** More on changing the file tree *)

Section more_writing.

Lemma walk_errno (t : gmap (list string) Fs.node) cur segs e :
  Fs.walk t cur segs = inl e → e = ENOENT ∨ e = ENOTDIR ∨ e = ENAMETOOLONG.
Proof.
  revert cur. induction segs as [|s rest IH]; intros cur; [done|]. simpl.
  destruct (t !! cur) as [[|]|]; [intros [= <-]; auto| |intros [= <-]; auto].
  destruct (Fs.NAME_MAX <? String.length s); [intros [= <-]; auto|apply IH].
Qed.

Lemma resolve_errno st p e :
  Fs.resolve st p = inl e →
  e = ENOENT ∨ e = ENOTDIR ∨ e = ENAMETOOLONG ∨ e = EmbeddedNull.
Proof.
  unfold Fs.resolve, Fs.precheck.
  destruct (Str.contains _ _); [intros [= <-]; auto|].
  destruct (Fs.PATH_MAX <=? _); [intros [= <-]; auto|].
  intros [-> | [-> | ->]]%walk_errno; auto.
Qed.

Lemma stat_errno st p e :
  Fs.stat st p = inl e →
  e = ENOENT ∨ e = ENOTDIR ∨ e = ENAMETOOLONG ∨ e = EmbeddedNull.
Proof.
  unfold Fs.stat. destruct (Fs.resolve st p) as [e'|loc] eqn:Hr.
  - intros [= <-]. by apply resolve_errno in Hr.
  - destruct (Fs.tree st !! loc); [done|]. intros [= <-]. auto.
Qed.

Lemma os_mkdir_errno st p e : Fs.os_mkdir st p = inl e → e ≠ EISDIR.
Proof.
  unfold Fs.os_mkdir.
  destruct (Fs.resolve st p) as [e'|loc] eqn:Hw.
  - intros [= <-]. by destruct (resolve_errno _ _ _ Hw) as [-> | [-> | [-> | ->]]].
  - destruct (Fs.tree st !! loc); [by intros [= <-]|].
    destruct (Fs.creatable p); [done|by intros [= <-]].
Qed.

Lemma os_error_class errno p :
  errno ≠ EISDIR → tree_error_class (Fs.os_error errno p).
Proof. unfold tree_error_class. destruct errno; simpl; auto 6. done. Qed.

Lemma stat_error_class st p e :
  Fs.stat st p = inl e → tree_error_class (Fs.os_error e p).
Proof.
  intros [-> | [-> | [-> | ->]]]%stat_errno; by apply os_error_class.
Qed.

Ltac mkdir_class :=
  intros [= <- _]; unfold tree_error_class; simpl; by auto 6.

Lemma mkdir_leaf_raises self exist_ok st e st' :
  Fs.mkdir_leaf self exist_ok st = (Raise e, st') → tree_error_class e.
Proof.
  unfold Fs.mkdir_leaf. destruct (Fs.os_mkdir st self) as [errno|st1] eqn:Hmk; [|done].
  pose proof (os_mkdir_errno _ _ _ Hmk) as Hne.
  destruct errno; try done;
    try (destruct (negb exist_ok || negb (Fs.is_dir st self)); [|done]);
    mkdir_class.
Qed.

Lemma mkdir_from_raises anchor rtail parents exist_ok st e st' :
  Fs.mkdir_from anchor rtail parents exist_ok st = (Raise e, st') →
  tree_error_class e.
Proof.
  revert parents exist_ok st e st'.
  induction rtail as [|s rparent IH]; intros parents exist_ok st e st'; simpl;
    destruct (Fs.os_mkdir st _) as [errno|st1] eqn:Hmk; try done;
    pose proof (os_mkdir_errno _ _ _ Hmk) as Hne;
    destruct errno; try done;
    try (destruct (negb exist_ok || negb (Fs.is_dir st _)); [|done];
         mkdir_class);
    try (destruct parents; mkdir_class);
    try mkdir_class.
  destruct parents; [|mkdir_class].
  destruct (Fs.mkdir_from anchor rparent true true st) as [[[]|e1] st1] eqn:Hin.
  - apply mkdir_leaf_raises.
  - intros [= <- _]. by apply IH in Hin.
Qed.

Lemma mkdir_existing p parents st :
  Fs.is_dir st p = true → Fs.mkdir p parents true st = (Ok tt, st).
Proof.
  intros Hd. unfold Fs.mkdir.
  assert (Fs.os_mkdir st p = inl EEXIST) as Hmk.
  { unfold Fs.is_dir, Fs.stat in Hd. unfold Fs.os_mkdir.
    destruct (Fs.resolve st p) as [e|loc]; [done|].
    by destruct (Fs.tree st !! loc). }
  pose proof (anchor_tail p) as Hp.
  rewrite <- (rev_involutive (PurePath.tail p)) in Hp.
  destruct (rev (PurePath.tail p)) as [|s rparent]; simpl in *;
    rewrite Hp, Hmk, Hd; done.
Qed.

Lemma move_file_only_adds source destination delete_original st :
  only_adds_directories st (snd (move_file source destination delete_original st)).
Proof.
  rewrite move_file_unfold. cbv zeta.
  destruct (Fs.stat st _) as [e|n]; [apply only_adds_refl|].
  destruct (fst (path_is_dir _ st)); [|apply only_adds_refl].
  pose proof (mkdir_adds
    (PurePath.parent (resolved_destination st source destination)) true true st) as H.
  by destruct (Fs.mkdir _ true true st) as [[[]|e] st1].
Qed.

Lemma delete_file_unfold path st :
  delete_file path st =
    match Fs.stat st (PurePath.of_args [path]) with
    | inl e =>
        (if Fs.ignored e then Ok false
         else Raise (Fs.os_error e (PurePath.of_args [path])), st)
    | inr _ =>
        match Fs.unlink (PurePath.of_args [path]) st with
        | (Ok _, st') => (Ok true, st')
        | (Raise e, st') => (Raise e, st')
        end
    end.
Proof.
  unfold delete_file, bind, path_exists, path_test, ret.
  destruct (Fs.stat st _) as [e|n]; [|done]. by destruct (Fs.ignored e).
Qed.

Lemma resolve_delete_back st l0 p loc :
  Fs.resolve (Fs.set_tree st (delete l0 (Fs.tree st))) p = inr loc →
  Fs.resolve st p = inr loc.
Proof.
  unfold Fs.resolve, Fs.origin. simpl. destruct (Fs.precheck p); [done|].
  generalize (if Str.is_empty (PurePath.root p) then Fs.cwd st else []).
  induction (PurePath.tail p) as [|s rest IH]; intros cur; [done|]. simpl.
  destruct (delete l0 (Fs.tree st) !! cur) as [[|]|] eqn:Hcur; try done.
  apply lookup_delete_Some in Hcur as [_ ->].
  destruct (Fs.NAME_MAX <? String.length s); [done|]. apply IH.
Qed.

Lemma unlink_file_gone st p loc bytes :
  Fs.resolve st p = inr loc → Fs.tree st !! loc = Some (Fs.File bytes) →
  Fs.stat (Fs.set_tree st (delete loc (Fs.tree st))) p = inl ENOENT.
Proof.
  intros Hres Hl. unfold Fs.stat.
  rewrite (resolve_delete_file _ _ _ _ _ Hl Hres). simpl.
  by rewrite lookup_delete_eq.
Qed.

(** The ways [delete_file] can go: the lookup fails, and the file tree
    stays; a regular file is removed; a directory is refused. *)
Lemma delete_file_cases path st :
  let p := PurePath.of_args [path] in
  (∃ e, Fs.stat st p = inl e ∧
        delete_file path st =
          (if Fs.ignored e then Ok false else Raise (Fs.os_error e p), st)) ∨
  (∃ loc bytes,
     Fs.resolve st p = inr loc ∧ Fs.tree st !! loc = Some (Fs.File bytes) ∧
     delete_file path st = (Ok true, Fs.set_tree st (delete loc (Fs.tree st))) ∧
     Fs.stat (Fs.set_tree st (delete loc (Fs.tree st))) p = inl ENOENT) ∨
  (Fs.is_dir st p = true ∧
   delete_file path st = (Raise (Fs.os_error EISDIR p), st)).
Proof.
  intros p. subst p. rewrite delete_file_unfold.
  destruct (Fs.stat st _) as [e|n] eqn:Hs; [left; by exists e|]. right.
  assert (Fs.exists_ st (PurePath.of_args [path]) = true) as He
    by (unfold Fs.exists_; by rewrite Hs).
  rewrite exists_file_or_dir in He. apply orb_true_iff in He as [Hf|Hd].
  - left. destruct (unlink_file _ _ Hf) as (loc & bytes & Hres & Hl & -> & _).
    exists loc, bytes. repeat split; try done. by apply unlink_file_gone with bytes.
  - right. by rewrite (unlink_dir _ _ Hd).
Qed.

Lemma no_wildcard_text path_pattern :
  has_wildcard path_pattern = false →
  first_wildcard_segment (PurePath.parse path_pattern) = None.
Proof.
  rewrite has_wildcard_parse. intros H.
  apply first_wildcard_None, Forall_forall.
  intros x Hx%list_elem_of_In. apply not_true_iff_false. intros Hw.
  apply not_true_iff_false in H. apply H, existsb_exists. eauto.
Qed.

Lemma last_in {A} (l : list A) d : l ≠ [] → In (List.last l d) l.
Proof.
  induction l as [|x l IH]; [done|]. intros _.
  destruct l as [|y l]; [by left|]. right. by apply IH.
Qed.

Lemma name_is_segment p :
  well_formed p → PurePath.name p ≠ "" → is_segment (PurePath.name p) = true.
Proof.
  unfold well_formed, PurePath.name. intros Hwf Hname.
  destruct (PurePath.tail p) as [|x t] eqn:Ht; [done|].
  rewrite Forall_forall in Hwf. apply Hwf, list_elem_of_In.
  by apply last_in.
Qed.

End more_writing.

(** ** More on [move_file] and [delete_file] *)



(** X9: moving into an existing directory.  When the destination is a
    directory, the file is to go inside it under the name of the source;
    its parent is that directory, so nothing is made and the call ends
    with the [NameError] on an unchanged file tree. *)
Theorem move_file_into_directory source destination delete_original st :
  let src := PurePath.of_args [source] in
  let dst := PurePath.of_args [destination] in
  Fs.exists_ st src = true →
  PurePath.name src ≠ "" →
  Fs.is_dir st dst = true →
  resolved_destination st source destination = dst ++ [PurePath.name src] ∧
  move_file source destination delete_original st = (Raise shutil_undefined, st).
Proof.
  intros src dst Hex Hname Hdir. subst src dst. rewrite of_args_single in *.
  pose proof (parse_well_formed source) as Hsrc.
  pose proof (parse_well_formed destination) as Hdst.
  pose proof (name_is_segment _ Hsrc Hname) as Hseg.
  destruct (segment_facts _ Hseg) as (_ & Hc & Hs & _ & Hk).
  assert (resolved_destination st source destination =
          PurePath.parse destination ++ [PurePath.name (PurePath.parse source)])
    as Hres.
  { unfold resolved_destination. rewrite !of_args_single, Hdir.
    rewrite truediv_relative, (split_no_sep _ _ Hc) by done.
    simpl. by rewrite Hk. }
  split; [done|].
  rewrite move_file_unfold. cbv zeta. rewrite !of_args_single, Hres.
  rewrite (path_is_dir_answers _ _ (exists_answers _ _ (is_dir_exists _ _ Hdir))).
  unfold Fs.exists_ in Hex.
  destruct (Fs.stat st (PurePath.parse source)) as [code|n]; [done|].
  simpl fst. cbv iota.
  assert (PurePath.parent
            (PurePath.parse destination ++ [PurePath.name (PurePath.parse source)])
          = PurePath.parse destination) as ->.
  { unfold PurePath.parent.
    pose proof (well_formed_app _ [PurePath.name (PurePath.parse source)] Hdst) as Hwf.
    destruct (PurePath.tail (_ ++ _)) as [|x t] eqn:Ht.
    - exfalso. pose proof (anchor_tail (PurePath.parse destination ++
                 [PurePath.name (PurePath.parse source)])) as Hat.
      rewrite Ht, app_nil_r in Hat. unfold Fs.anchor in Hat.
      destruct (Str.is_empty _).
      + by destruct (PurePath.parse destination).
      + destruct (PurePath.parse destination) as [|r [|] ]; simplify_eq/=.
        unfold PurePath.root in Hseg. destruct (PurePath.is_root _) eqn:Hr.
        * by rewrite (segment_not_root _ Hseg) in Hr.
        * done.
    - apply removelast_last. }
  by rewrite (mkdir_existing _ true st Hdir).
Qed.

Lemma move_file_into_directory_witness :
  resolved_destination scenario_D_tree "a/b/file.txt" "a" = ["a"; "file.txt"] ∧
  move_file "a/b/file.txt" "a" true scenario_D_tree =
    (Raise shutil_undefined, scenario_D_tree).
Proof.
  apply (move_file_into_directory "a/b/file.txt" "a" true scenario_D_tree).
  - vm_compute. reflexivity.
  - vm_compute. discriminate.
  - vm_compute. reflexivity.
Defined.

(** X10: [delete_file] touches one entry at most.  Whatever the path,
    the working directory stays, every directory stays a directory and
    nothing becomes one, nothing comes into existence, and every entry
    whose path resolves elsewhere than the given path is as before. *)
Theorem delete_file_frame path st :
  let st' := snd (delete_file path st) in
  Fs.cwd st' = Fs.cwd st ∧
  (∀ q, Fs.is_dir st' q = Fs.is_dir st q) ∧
  (∀ q, Fs.exists_ st' q = true → Fs.exists_ st q = true) ∧
  (∀ q n, Fs.stat st q = inr n →
          Fs.resolve st q ≠ Fs.resolve st (PurePath.of_args [path]) →
          Fs.stat st' q = inr n).
Proof.
  cbv zeta.
  destruct (delete_file_cases path st)
    as [(e & _ & ->)|[(loc & bytes & Hres & Hl & -> & _)|[_ ->]]]; try done.
  simpl. split; [done|].
  assert (∀ q l n, Fs.resolve st q = inr l → Fs.tree st !! l = Some n →
                   Fs.stat (Fs.set_tree st (delete loc (Fs.tree st))) q =
                   if decide (l = loc) then inl ENOENT else inr n) as Hstat.
  { intros q l n Hq Hn. unfold Fs.stat.
    rewrite (resolve_delete_file _ _ _ _ _ Hl Hq). simpl.
    destruct (decide (l = loc)) as [->|Hne].
    - by rewrite lookup_delete_eq.
    - rewrite lookup_delete_ne by congruence. by rewrite Hn. }
  assert (∀ q n, Fs.stat (Fs.set_tree st (delete loc (Fs.tree st))) q = inr n →
                 Fs.stat st q = inr n) as Hback.
  { intros q n. unfold Fs.stat.
    destruct (Fs.resolve (Fs.set_tree st _) q) as [e|l] eqn:Hw; [done|].
    rewrite (resolve_delete_back _ _ _ _ Hw). simpl.
    destruct (delete loc (Fs.tree st) !! l) as [m|] eqn:Hm; [|done].
    apply lookup_delete_Some in Hm as [_ ->]. done. }
  repeat split.
  - intros q. unfold Fs.is_dir.
    destruct (Fs.stat (Fs.set_tree st (delete loc (Fs.tree st))) q) as [e|n] eqn:Hn.
    + destruct (Fs.stat st q) as [e'|[|]] eqn:Hq; try done.
      unfold Fs.stat in Hq.
      destruct (Fs.resolve st q) as [e'|l] eqn:Hr; [done|].
      destruct (Fs.tree st !! l) as [m|] eqn:Hm; [|done]. injection Hq as ->.
      rewrite (Hstat _ _ _ Hr Hm) in Hn.
      destruct (decide (l = loc)) as [->|]; [|done]. congruence.
    + by rewrite (Hback _ _ Hn).
  - intros q. unfold Fs.exists_.
    destruct (Fs.stat (Fs.set_tree st (delete loc (Fs.tree st))) q) as [e|n] eqn:Hn;
      [done|]. by rewrite (Hback _ _ Hn).
  - intros q n Hq Hne. rewrite Hres in Hne.
    unfold Fs.stat in Hq.
    destruct (Fs.resolve st q) as [e'|l] eqn:Hr; [done|].
    destruct (Fs.tree st !! l) as [m|] eqn:Hm; [|done]. injection Hq as ->.
    rewrite (Hstat _ _ _ Hr Hm).
    destruct (decide (l = loc)) as [->|]; [done|done].
Qed.

Lemma delete_file_frame_witness :
  Fs.stat (snd (delete_file "file1.txt" example_tree)) ["file2.txt"] =
    inr (Fs.File []) ∧
  Fs.is_dir (snd (delete_file "file1.txt" example_tree)) ["logs"] = true.
Proof.
  destruct (delete_file_frame "file1.txt" example_tree) as (_ & Hdir & _ & Hstat).
  split.
  - apply Hstat; [vm_compute; reflexivity|vm_compute; discriminate].
  - rewrite Hdir. vm_compute. reflexivity.
Defined.

(** X11: deleting twice.  After a call that returned true, the same call
    returns false and changes nothing. *)
Theorem delete_file_twice path st :
  fst (delete_file path st) = Ok true →
  delete_file path (snd (delete_file path st)) =
    (Ok false, snd (delete_file path st)).
Proof.
  destruct (delete_file_cases path st)
    as [(e & _ & ->)|[(loc & bytes & _ & _ & -> & Hgone)|[_ ->]]]; try done.
  - by destruct (Fs.ignored e).
  - intros _. simpl. by rewrite delete_file_unfold, Hgone.
Qed.

Lemma delete_file_twice_witness :
  delete_file "a/b/file.txt" (snd (delete_file "a/b/file.txt" scenario_D_tree)) =
    (Ok false, snd (delete_file "a/b/file.txt" scenario_D_tree)).
Proof.
  apply (delete_file_twice "a/b/file.txt" scenario_D_tree).
  vm_compute. reflexivity.
Defined.

(** X12: a deleted file is not found any more.  After [delete_file]
    returned true for a path without wildcard characters,
    [find_matching_paths] on that path returns the empty list, or raises
    [FileNotFoundError] when asked to. *)
Theorem delete_file_then_find glob path st :
  fst (delete_file path st) = Ok true →
  has_wildcard path = false →
  let st' := snd (delete_file path st) in
  find_matching_paths glob path false st' = (Ok [], st') ∧
  find_matching_paths glob path true st' =
    (Raise (Exn FileNotFoundError ("No files found: " +:+ path)), st').
Proof.
  intros Hrun Hlit%no_wildcard_text. cbv zeta.
  destruct (delete_file_cases path st)
    as [(e & _ & Hd)|[(loc & bytes & _ & _ & Hd & Hgone)|[_ Hd]]];
    rewrite Hd in *; try done.
  - by destruct (Fs.ignored e).
  - simpl. rewrite of_args_single in Hgone.
    rewrite !(find_literal glob _ _ _ Hlit). cbv zeta. by rewrite Hgone.
Qed.

Lemma delete_file_then_find_witness :
  find_matching_paths Glob.glob "a/b/file.txt" false
    (snd (delete_file "a/b/file.txt" scenario_D_tree)) =
    (Ok [], snd (delete_file "a/b/file.txt" scenario_D_tree)).
Proof.
  apply (delete_file_then_find Glob.glob "a/b/file.txt" scenario_D_tree).
  - vm_compute. reflexivity.
  - vm_compute. reflexivity.
Defined.

(** X13: what was found before [move_file] is found after it.  A path
    without wildcard characters that is a regular file is returned by
    [find_matching_paths] on the file tree that any call of [move_file]
    leaves. *)
Theorem move_file_then_find glob source destination delete_original path r st :
  has_wildcard path = false →
  Fs.is_file st (PurePath.of_args [path]) = true →
  let st' := snd (move_file source destination delete_original st) in
  find_matching_paths glob path r st' = (Ok [PurePath.of_args [path]], st').
Proof.
  intros Hlit%no_wildcard_text Hfile. cbv zeta. rewrite of_args_single in *.
  pose proof (move_file_only_adds source destination delete_original st) as Hadd.
  rewrite (find_literal glob _ _ _ Hlit). cbv zeta. unfold Fs.is_file in *.
  destruct (Fs.stat st (PurePath.parse path)) as [e|[bytes|]] eqn:Hs; try done.
  rewrite (stat_mono _ _ _ _ Hadd Hs). by rewrite andb_false_r.
Qed.

Lemma move_file_then_find_witness :
  find_matching_paths Glob.glob "a/b/file.txt" true
    (snd (move_file "a/b/file.txt" "x/y/file.txt" true scenario_D_tree)) =
    (Ok [["a"; "b"; "file.txt"]],
     snd (move_file "a/b/file.txt" "x/y/file.txt" true scenario_D_tree)).
Proof.
  apply (move_file_then_find Glob.glob "a/b/file.txt" "x/y/file.txt" true
           "a/b/file.txt" true scenario_D_tree).
  - vm_compute. reflexivity.
  - vm_compute. reflexivity.
Defined.
